(** * The Tetris engine of [tetris.js]: a shallow embedding and its properties

    The JavaScript program keeps its whole state in module-level variables
    and mutates them from key-press and timer callbacks.  Here the variables
    are the fields of one record [Game], every function of the source that
    touches them is a function on [Game], and the three ways a JavaScript
    call can end are the three constructors of [outcome]: a normal return,
    an uncaught [TypeError], and a loop that has not finished within the
    number of iterations granted to it.

    Rendering (escape codes written to the terminal) and the interval timer
    handle [gameLoop] do not influence any modelled variable and are left
    out. *)

From Stdlib Require Import ZArith List Bool Lia String Ascii Arith.
Import ListNotations.
Open Scope Z_scope.

(** ** Outcomes of a call *)

Inductive outcome (A : Type) : Type :=
| Ok (a : A)      (* the call returned *)
| Throw           (* an uncaught TypeError *)
| Diverge.        (* the iteration budget of a loop ran out *)
Arguments Ok {A} a.
Arguments Throw {A}.
Arguments Diverge {A}.

Definition bind {A B : Type} (m : outcome A) (k : A -> outcome B) : outcome B :=
  match m with
  | Ok a => k a
  | Throw => Throw
  | Diverge => Diverge
  end.

Notation "x <- m ;; k" := (bind m (fun x => k))
  (at level 61, m at next level, right associativity).
Notation "' pat <- m ;; k" := (bind m (fun x => match x with pat => k end))
  (at level 61, pat pattern, m at next level, right associativity).

(** ** Game configuration *)

Definition BOARD_WIDTH : Z := 10.
Definition BOARD_HEIGHT : Z := 20.

(** ** Pieces *)

(** A shape matrix is an array of arrays of numbers; a cell is occupied when
    its number is truthy, that is, not zero.  Reading a cell that is not
    there gives [undefined] in JavaScript, which is falsy as well and is
    read as [0] here. *)
Definition Shape : Type := list (list Z).

Record Piece : Type := mkPiece {
  shape : Shape;
  color : string;
  char : string
}.

Definition truthy (v : Z) : bool := negb (v =? 0).

Definition ESC : string := String (ascii_of_nat 27) EmptyString.

Definition PIECES : list Piece :=
  [ mkPiece [[1; 1; 1; 1]] (ESC ++ "[96m") "█";              (* I *)
    mkPiece [[1; 1]; [1; 1]] (ESC ++ "[93m") "█";           (* O *)
    mkPiece [[0; 1; 0]; [1; 1; 1]] (ESC ++ "[95m") "█";     (* T *)
    mkPiece [[0; 1; 1]; [1; 1; 0]] (ESC ++ "[92m") "█";     (* S *)
    mkPiece [[1; 1; 0]; [0; 1; 1]] (ESC ++ "[91m") "█";     (* Z *)
    mkPiece [[1; 0; 0]; [1; 1; 1]] (ESC ++ "[94m") "█";     (* J *)
    mkPiece [[0; 0; 1]; [1; 1; 1]] (ESC ++ "[38;5;208m") "█" (* L *) ]%string.

(** [PIECES[i]]: [None] stands for [undefined]. *)
Definition PIECES_at (i : Z) : option Piece :=
  if i <? 0 then None else nth_error PIECES (Z.to_nat i).

(** ** The board *)

(** A board cell is [null], a reference to the piece locked there, or a
    hole: the element an array write past the end leaves behind. *)
Inductive cell : Type :=
| Null
| Hole
| Ref (p : Piece).

Definition Board : Type := list (list cell).

(** Truthiness of [board[y][x]]: only a piece reference is truthy. *)
Definition cellTruthy (c : cell) : bool :=
  match c with
  | Ref _ => true
  | _ => false
  end.

(** [a[n] = v] on an array: in range it replaces the element, past the end
    it extends the array, leaving [pad] in between. *)
Fixpoint set_at {A : Type} (pad : A) (n : nat) (v : A) (l : list A) : list A :=
  match n, l with
  | O, [] => [v]
  | O, _ :: t => v :: t
  | S n', [] => pad :: set_at pad n' v []
  | S n', h :: t => h :: set_at pad n' v t
  end.

(** ** Numbers that may be NaN *)

(** [score] is the one variable that can become [NaN] (through an index
    past the end of the points table). *)
Inductive num : Type :=
| Int (z : Z)
| NaN.

Definition num_add (a b : num) : num :=
  match a, b with
  | Int x, Int y => Int (x + y)
  | _, _ => NaN
  end.

Definition num_mul (a b : num) : num :=
  match a, b with
  | Int x, Int y => Int (x * y)
  | _, _ => NaN
  end.

(** [a > b]: false as soon as one side is NaN. *)
Definition num_gt (a b : num) : bool :=
  match a, b with
  | Int x, Int y => x >? y
  | _, _ => false
  end.

(** A value returned by a function that may have no [return] statement. *)
Inductive jsvalue : Type :=
| Undefined
| Number (z : Z).

(** ** Game state *)

(** The module-level variables, together with the two pieces of the
    environment the functions read and write:

    - [hsFile], the high-score file: [None] when it does not exist,
      otherwise the number [parseInt] reads from its content ([NaN] for
      content that is not a number).  The file is only ever written with
      [score.toString()], which [parseInt] reads back as the same integer.
      File operations are taken to succeed; the [catch] branches are not
      modelled.
    - [entropy] and [drawn]: the source of [Math.random].  The [n]-th call
      of [Math.floor(Math.random() * k)] is [entropy n mod k]: nothing is
      known of it but that it lies in [[0, k)].

    [startPending] is the listener registered with [once] in [main], and
    [exited] records that [process.exit] was called. *)
Record Game : Type := mkGame {
  board : Board;
  currentPiece : option Piece;
  currentX : Z;
  currentY : Z;
  score : num;
  lines : Z;
  level : Z;
  highScore : Z;
  gameRunning : bool;
  gamePaused : bool;
  nextPieceIndex : Z;
  hsFile : option num;
  entropy : nat -> nat;
  drawn : nat;
  startPending : bool;
  exited : bool
}.

Definition set_board (v : Board) (s : Game) : Game :=
  mkGame v (currentPiece s) (currentX s) (currentY s) (score s) (lines s)
    (level s) (highScore s) (gameRunning s) (gamePaused s) (nextPieceIndex s)
    (hsFile s) (entropy s) (drawn s) (startPending s) (exited s).
Definition set_currentPiece (v : option Piece) (s : Game) : Game :=
  mkGame (board s) v (currentX s) (currentY s) (score s) (lines s)
    (level s) (highScore s) (gameRunning s) (gamePaused s) (nextPieceIndex s)
    (hsFile s) (entropy s) (drawn s) (startPending s) (exited s).
Definition set_currentX (v : Z) (s : Game) : Game :=
  mkGame (board s) (currentPiece s) v (currentY s) (score s) (lines s)
    (level s) (highScore s) (gameRunning s) (gamePaused s) (nextPieceIndex s)
    (hsFile s) (entropy s) (drawn s) (startPending s) (exited s).
Definition set_currentY (v : Z) (s : Game) : Game :=
  mkGame (board s) (currentPiece s) (currentX s) v (score s) (lines s)
    (level s) (highScore s) (gameRunning s) (gamePaused s) (nextPieceIndex s)
    (hsFile s) (entropy s) (drawn s) (startPending s) (exited s).
Definition set_score (v : num) (s : Game) : Game :=
  mkGame (board s) (currentPiece s) (currentX s) (currentY s) v (lines s)
    (level s) (highScore s) (gameRunning s) (gamePaused s) (nextPieceIndex s)
    (hsFile s) (entropy s) (drawn s) (startPending s) (exited s).
Definition set_lines (v : Z) (s : Game) : Game :=
  mkGame (board s) (currentPiece s) (currentX s) (currentY s) (score s) v
    (level s) (highScore s) (gameRunning s) (gamePaused s) (nextPieceIndex s)
    (hsFile s) (entropy s) (drawn s) (startPending s) (exited s).
Definition set_level (v : Z) (s : Game) : Game :=
  mkGame (board s) (currentPiece s) (currentX s) (currentY s) (score s) (lines s)
    v (highScore s) (gameRunning s) (gamePaused s) (nextPieceIndex s)
    (hsFile s) (entropy s) (drawn s) (startPending s) (exited s).
Definition set_highScore (v : Z) (s : Game) : Game :=
  mkGame (board s) (currentPiece s) (currentX s) (currentY s) (score s) (lines s)
    (level s) v (gameRunning s) (gamePaused s) (nextPieceIndex s)
    (hsFile s) (entropy s) (drawn s) (startPending s) (exited s).
Definition set_gameRunning (v : bool) (s : Game) : Game :=
  mkGame (board s) (currentPiece s) (currentX s) (currentY s) (score s) (lines s)
    (level s) (highScore s) v (gamePaused s) (nextPieceIndex s)
    (hsFile s) (entropy s) (drawn s) (startPending s) (exited s).
Definition set_gamePaused (v : bool) (s : Game) : Game :=
  mkGame (board s) (currentPiece s) (currentX s) (currentY s) (score s) (lines s)
    (level s) (highScore s) (gameRunning s) v (nextPieceIndex s)
    (hsFile s) (entropy s) (drawn s) (startPending s) (exited s).
Definition set_nextPieceIndex (v : Z) (s : Game) : Game :=
  mkGame (board s) (currentPiece s) (currentX s) (currentY s) (score s) (lines s)
    (level s) (highScore s) (gameRunning s) (gamePaused s) v
    (hsFile s) (entropy s) (drawn s) (startPending s) (exited s).
Definition set_hsFile (v : option num) (s : Game) : Game :=
  mkGame (board s) (currentPiece s) (currentX s) (currentY s) (score s) (lines s)
    (level s) (highScore s) (gameRunning s) (gamePaused s) (nextPieceIndex s)
    v (entropy s) (drawn s) (startPending s) (exited s).
Definition set_drawn (v : nat) (s : Game) : Game :=
  mkGame (board s) (currentPiece s) (currentX s) (currentY s) (score s) (lines s)
    (level s) (highScore s) (gameRunning s) (gamePaused s) (nextPieceIndex s)
    (hsFile s) (entropy s) v (startPending s) (exited s).
Definition set_startPending (v : bool) (s : Game) : Game :=
  mkGame (board s) (currentPiece s) (currentX s) (currentY s) (score s) (lines s)
    (level s) (highScore s) (gameRunning s) (gamePaused s) (nextPieceIndex s)
    (hsFile s) (entropy s) (drawn s) v (exited s).
Definition set_exited (v : bool) (s : Game) : Game :=
  mkGame (board s) (currentPiece s) (currentX s) (currentY s) (score s) (lines s)
    (level s) (highScore s) (gameRunning s) (gamePaused s) (nextPieceIndex s)
    (hsFile s) (entropy s) (drawn s) (startPending s) v.

(** [Math.floor(Math.random() * PIECES.length)] *)
Definition randomIndex (s : Game) : Z * Game :=
  (Z.of_nat (entropy s (drawn s) mod List.length PIECES), set_drawn (S (drawn s)) s).

(** ** High score *)

(** [parseInt(data) || 0]: NaN and 0 both give 0. *)
Definition parseInt_or_0 (data : num) : Z :=
  match data with
  | Int z => z
  | NaN => 0
  end.

Definition loadHighScore (s : Game) : Game :=
  match hsFile s with
  | Some data => set_highScore (parseInt_or_0 data) s
  | None => s
  end.

Definition saveHighScore (s : Game) : Game :=
  if num_gt (score s) (Int (highScore s))
  then set_hsFile (Some (score s)) s
  else s.

(** ** The board and the active piece *)

Definition emptyRow : list cell := repeat Null (Z.to_nat BOARD_WIDTH).

Definition initBoard (s : Game) : Game :=
  set_board (repeat emptyRow (Z.to_nat BOARD_HEIGHT)) s.

(** The inner loop of [isValidPosition] over the cells of one shape row,
    from column [col] on; [Ok true] means the loop ran to its end. *)
Fixpoint validRow (b : Board) (x y : Z) (row col : nat) (r : list Z)
  : outcome bool :=
  match r with
  | [] => Ok true
  | v :: r' =>
    if truthy v then
      let newX := x + Z.of_nat col in
      let newY := y + Z.of_nat row in
      if (newX <? 0) || (newX >=? BOARD_WIDTH) || (newY >=? BOARD_HEIGHT)
      then Ok false
      else if newY >=? 0 then
        match nth_error b (Z.to_nat newY) with
        | None => Throw                       (* board[newY] is undefined *)
        | Some brow =>
          if cellTruthy (nth (Z.to_nat newX) brow Hole)
          then Ok false
          else validRow b x y row (S col) r'
        end
      else validRow b x y row (S col) r'
    else validRow b x y row (S col) r'
  end.

(** The outer loop, from row [row] on. *)
Fixpoint validRows (b : Board) (x y : Z) (row : nat) (sh : Shape)
  : outcome bool :=
  match sh with
  | [] => Ok true
  | r :: sh' =>
    ok <- validRow b x y row 0 r ;;
    if ok then validRows b x y (S row) sh' else Ok false
  end.

Definition isValidPosition (b : Board) (sh : Shape) (x y : Z) : outcome bool :=
  validRows b x y 0 sh.

Definition gameOver (s : Game) : Game :=
  saveHighScore (set_gameRunning false s).

Definition spawnPiece (s : Game) : outcome (bool * Game) :=
  let s :=
    if nextPieceIndex s =? -1
    then let (i, s') := randomIndex s in set_nextPieceIndex i s'
    else s in
  let pieceIndex := nextPieceIndex s in
  let (i, s) := randomIndex s in
  let s := set_nextPieceIndex i s in
  match PIECES_at pieceIndex with
  | None => Throw                             (* undefined.shape *)
  | Some p =>
    let s := set_currentPiece (Some p) s in
    match shape p with
    | [] => Throw                             (* shape[0] is undefined *)
    | r0 :: _ =>
      let s := set_currentX ((BOARD_WIDTH - Z.of_nat (List.length r0)) / 2) s in
      let s := set_currentY 0 s in
      ok <- isValidPosition (board s) (shape p) (currentX s) (currentY s) ;;
      if ok then Ok (true, s) else Ok (false, gameOver s)
    end
  end.

(** ** Rotation *)

Definition cellAt (sh : Shape) (row col : nat) : Z :=
  nth col (nth row sh []) 0.

(** [rotated[i][j] = v].  Every use below has [i] in range; a missing row
    leaves the matrix as it is. *)
Definition set2 (i j : nat) (v : Z) (m : Shape) : Shape :=
  match nth_error m i with
  | Some r => set_at [] i (set_at 0 j v r) m
  | None => m
  end.

(** The two nested loops that fill [rotated]. *)
Definition rotateFill (sh : Shape) (rows cols : nat) (rotated : Shape) : Shape :=
  fold_left
    (fun rot row =>
       fold_left
         (fun rot col => set2 col (rows - 1 - row) (cellAt sh row col) rot)
         (seq 0 cols) rot)
    (seq 0 rows) rotated.

Definition rotate (sh : Shape) : outcome Shape :=
  match sh with
  | [] => Throw                               (* shape[0] is undefined *)
  | r0 :: _ =>
    let rows := List.length sh in
    let cols := List.length r0 in
    Ok (rotateFill sh rows cols (repeat (repeat 0 rows) cols))
  end.

Definition kicks : list Z := [0; -1; 1; -2; 2].

Fixpoint tryKicks (s : Game) (p : Piece) (rotated : Shape) (ks : list Z)
  : outcome Game :=
  match ks with
  | [] => Ok s
  | kick :: ks' =>
    ok <- isValidPosition (board s) rotated (currentX s + kick) (currentY s) ;;
    if ok
    then Ok (set_currentX (currentX s + kick)
               (set_currentPiece (Some (mkPiece rotated (color p) (char p))) s))
    else tryKicks s p rotated ks'
  end.

Definition rotatePiece (s : Game) : outcome Game :=
  match currentPiece s with
  | None => Throw                             (* null.shape *)
  | Some p =>
    rotated <- rotate (shape p) ;;
    tryKicks s p rotated kicks
  end.

(** ** Locking *)

(** [board[boardY][boardX] = piece] on the row [brow = board[boardY]].  A
    negative index names a property of the array, not an element. *)
Definition writeCell (boardX : Z) (p : Piece) (brow : list cell) : list cell :=
  if boardX <? 0 then brow else set_at Hole (Z.to_nat boardX) (Ref p) brow.

Fixpoint lockRow (p : Piece) (x y : Z) (row col : nat) (r : list Z) (b : Board)
  : outcome Board :=
  match r with
  | [] => Ok b
  | v :: r' =>
    if truthy v then
      let boardY := y + Z.of_nat row in
      let boardX := x + Z.of_nat col in
      if boardY >=? 0 then
        match nth_error b (Z.to_nat boardY) with
        | None => Throw                       (* board[boardY] is undefined *)
        | Some brow =>
          lockRow p x y row (S col) r'
            (set_at [] (Z.to_nat boardY) (writeCell boardX p brow) b)
        end
      else lockRow p x y row (S col) r' b
    else lockRow p x y row (S col) r' b
  end.

Fixpoint lockRows (p : Piece) (x y : Z) (row : nat) (sh : Shape) (b : Board)
  : outcome Board :=
  match sh with
  | [] => Ok b
  | r :: sh' =>
    b' <- lockRow p x y row 0 r b ;;
    lockRows p x y (S row) sh' b'
  end.

Definition lockPiece (s : Game) : outcome Game :=
  match currentPiece s with
  | None => Throw
  | Some p =>
    b <- lockRows p (currentX s) (currentY s) 0 (shape p) (board s) ;;
    Ok (set_board b s)
  end.

(** ** Clearing lines *)

(** [row.every(cell => cell !== null)]: [every] skips holes. *)
Definition rowFull (r : list cell) : bool :=
  forallb (fun c => match c with Null => false | _ => true end) r.

(** [board.splice(row, 1)] *)
Definition splice1 (n : nat) (b : Board) : Board :=
  firstn n b ++ skipn (S n) b.

Definition points : list Z := [0; 100; 300; 600; 1000].

(** The [for] loop of [clearLines], entered at its condition with loop
    variable [row]; [fuel] bounds the number of times the condition is
    evaluated.  After a removal the source does [row++] and the loop header
    [row--]: the same index is examined again. *)
Fixpoint clearLoop (fuel : nat) (row : Z) (b : Board) (linesCleared : nat)
  : outcome (Board * nat) :=
  match fuel with
  | O => Diverge
  | S fuel' =>
    if row >=? 0 then
      match nth_error b (Z.to_nat row) with
      | None => Throw                         (* board[row] is undefined *)
      | Some r =>
        if rowFull r
        then clearLoop fuel' row (emptyRow :: splice1 (Z.to_nat row) b)
               (S linesCleared)
        else clearLoop fuel' (row - 1) b linesCleared
      end
    else Ok (b, linesCleared)
  end.

(** [points[linesCleared] * level]; an index past the table is [undefined],
    and [undefined * level] is NaN. *)
Definition pointsFor (linesCleared : nat) (lvl : Z) : num :=
  num_mul
    match nth_error points linesCleared with
    | Some p => Int p
    | None => NaN
    end
    (Int lvl).

(** The block guarded by [linesCleared > 0]. *)
Definition tally (linesCleared : nat) (s : Game) : Game :=
  if (0 <? linesCleared)%nat then
    let s := set_score (num_add (score s) (pointsFor linesCleared (level s))) s in
    let s := set_lines (lines s + Z.of_nat linesCleared) s in
    set_level (lines s / 10 + 1) s
  else s.

(** The function has no [return] statement: its value is [undefined]. *)
Definition clearLines (fuel : nat) (s : Game) : outcome (jsvalue * Game) :=
  '(b, linesCleared) <- clearLoop fuel (BOARD_HEIGHT - 1) (board s) 0 ;;
  Ok (Undefined, tally linesCleared (set_board b s)).

(** ** Speed *)

Definition INITIAL_SPEED : Z := 800.   (* starting milliseconds per tick *)
Definition MIN_SPEED : Z := 100.

(** [Math.max(MIN_SPEED, INITIAL_SPEED - (level - 1) * 80)] *)
Definition getSpeed (s : Game) : Z :=
  Z.max MIN_SPEED (INITIAL_SPEED - (level s - 1) * 80).

(** ** Moving and dropping *)

Definition movePiece (dx dy : Z) (s : Game) : outcome (bool * Game) :=
  match currentPiece s with
  | None => Throw
  | Some p =>
    ok <- isValidPosition (board s) (shape p) (currentX s + dx) (currentY s + dy) ;;
    if ok
    then Ok (true, set_currentY (currentY s + dy) (set_currentX (currentX s + dx) s))
    else Ok (false, s)
  end.

(** [while (movePiece(0, 1)) {}]; [fuel] bounds the number of calls of
    [movePiece]. *)
Fixpoint dropLoop (fuel : nat) (s : Game) : outcome Game :=
  match fuel with
  | O => Diverge
  | S fuel' =>
    '(moved, s') <- movePiece 0 1 s ;;
    if moved then dropLoop fuel' s' else Ok s'
  end.

(** [lockPiece(); clearLines(); spawnPiece();] with the value of
    [spawnPiece]. *)
Definition lockClearSpawn (fuel : nat) (s : Game) : outcome (bool * Game) :=
  s <- lockPiece s ;;
  '(_, s) <- clearLines fuel s ;;
  spawnPiece s.

Definition hardDrop (fuel : nat) (s : Game) : outcome Game :=
  s <- dropLoop fuel s ;;
  '(_, s) <- lockClearSpawn fuel s ;;
  Ok s.

Definition gameTick (fuel : nat) (s : Game) : outcome Game :=
  if negb (gameRunning s) || gamePaused s then Ok s else
  '(moved, s) <- movePiece 0 1 s ;;
  if moved then Ok s else
  '(_, s) <- lockClearSpawn fuel s ;;
  Ok s.

Definition initGame (s : Game) : outcome Game :=
  let s := initBoard s in
  let s := set_score (Int 0) s in
  let s := set_lines 0 s in
  let s := set_level 1 s in
  let s := set_nextPieceIndex (-1) s in
  let s := set_gameRunning true s in
  let s := set_gamePaused false s in
  '(_, s) <- spawnPiece s ;;
  Ok s.

Definition quitGame (s : Game) : Game :=
  set_exited true (saveHighScore (set_gameRunning false s)).

(** ** Input *)

Definition keyIs (name : string) (k : string) : bool := String.eqb k name.

Definition handleInput (fuel : nat) (k : string) (s : Game) : outcome Game :=
  if negb (gameRunning s) then
    if keyIs "r" k || keyIs "R" k then initGame s else Ok s
  else if keyIs "p" k || keyIs "P" k then
    Ok (set_gamePaused (negb (gamePaused s)) s)
  else if gamePaused s then Ok s
  else if keyIs "left" k || keyIs "a" k then
    '(_, s) <- movePiece (-1) 0 s ;; Ok s
  else if keyIs "right" k || keyIs "d" k then
    '(_, s) <- movePiece 1 0 s ;; Ok s
  else if keyIs "up" k || keyIs "w" k then
    rotatePiece s
  else if keyIs "down" k || keyIs "s" k then
    '(moved, s) <- movePiece 0 1 s ;;
    if moved then Ok s else
    '(_, s) <- lockClearSpawn fuel s ;; Ok s
  else if keyIs "space" k then
    hardDrop fuel s
  else if keyIs "q" k || keyIs "Q" k || keyIs "escape" k then
    Ok (quitGame s)
  else Ok s.

(** ** The process *)

(** The module-level initialisers followed by the part of [main] that
    touches them: [loadHighScore()] and the registration of the [once]
    listener. *)
Definition main (file : option num) (rnd : nat -> nat) : Game :=
  loadHighScore
    (mkGame [] None 0 0 (Int 0) 0 1 0 false false (-1) file rnd 0 true false).

Inductive event : Type :=
| Keypress (key : option string)   (* [key] may be undefined *)
| Timer.                           (* the interval fires [gameTick] *)

(** One callback run to completion.  A key press runs the listener
    registered with [on] and then, the first time, the one registered with
    [once]. *)
Definition dispatch (fuel : nat) (ev : event) (s : Game) : outcome Game :=
  if exited s then Ok s else
  match ev with
  | Keypress key =>
    s <- match key with
         | Some k => handleInput fuel k s
         | None => Ok s
         end ;;
    if exited s then Ok s else
    if startPending s then initGame (set_startPending false s) else Ok s
  | Timer => gameTick fuel s
  end.

Fixpoint run (fuel : nat) (evs : list event) (s : Game) : outcome Game :=
  match evs with
  | [] => Ok s
  | ev :: evs' => s' <- dispatch fuel ev s ;; run fuel evs' s'
  end.

(** The states the process can be in between two callbacks. *)
Inductive reachable : Game -> Prop :=
| reach_main (file : option num) (rnd : nat -> nat) :
    reachable (main file rnd)
| reach_event (fuel : nat) (ev : event) (s s' : Game) :
    reachable s -> dispatch fuel ev s = Ok s' -> reachable s'.

(** ** Vocabulary of the properties *)

(** The shape has an occupied cell at ([row], [col]). *)
Definition occupied (sh : Shape) (row col : nat) : Prop :=
  truthy (cellAt sh row col) = true.

(** What [board[y][x]] reads, for [y] and [x] that are not negative. *)
Definition boardCell (b : Board) (y x : Z) : cell :=
  nth (Z.to_nat x) (nth (Z.to_nat y) b []) Hole.

(** The cell ([row], [col]) of a matrix placed with origin ([x], [y]) is
    outside the side walls, at or below the floor, or on an occupied cell
    of the board. *)
Definition blocked (b : Board) (x y : Z) (row col : nat) : Prop :=
  let newX := x + Z.of_nat col in
  let newY := y + Z.of_nat row in
  newX < 0 \/ BOARD_WIDTH <= newX \/ BOARD_HEIGHT <= newY \/
  (0 <= newY /\ cellTruthy (boardCell b newY newX) = true).

(** The matrix has [R] rows of [C] cells each. *)
Definition rect (R C : nat) (m : Shape) : Prop :=
  List.length m = R /\ Forall (fun r => List.length r = C) m.

(** The board has the rows the loops index. *)
Definition tall (b : Board) : Prop :=
  Z.of_nat (List.length b) = BOARD_HEIGHT.

(** A board row as [initBoard] and the engine keep it: [BOARD_WIDTH]
    cells, none of them a hole. *)
Definition wfRow (r : list cell) : Prop :=
  Z.of_nat (List.length r) = BOARD_WIDTH /\ Forall (fun c => c <> Hole) r.

Definition wellFormed (b : Board) : Prop :=
  tall b /\ Forall wfRow b.

(** Every cell of the row is occupied. *)
Definition rowOccupied (r : list cell) : bool := forallb cellTruthy r.

(** The rows [clearLines] removes, and those it keeps. *)
Definition fullCount (b : Board) : nat :=
  List.length (filter rowFull b).

Definition keptRows (b : Board) : Board :=
  filter (fun r => negb (rowFull r)) b.

(** The two boards have the same rows outside the index range
    [[lo, hi)]. *)
Definition sameOutside (lo hi : nat) (b b' : Board) : Prop :=
  List.length b' = List.length b /\
  forall i, (i < lo \/ hi <= i)%nat -> nth i b' [] = nth i b [].

(** A shape as the catalog and its rotations have it: a rectangular
    matrix of at most four rows and columns with an occupied cell. *)
Definition goodShape (sh : Shape) : Prop :=
  exists R C : nat,
    (0 < R <= 4)%nat /\ (0 < C <= 4)%nat /\ rect R C sh /\
    exists i j, occupied sh i j.

(** The occupied cells of the active piece lie between the side walls and
    above the floor, and those that are not above the top of the board lie
    on empty cells. *)
Definition pieceInBounds (s : Game) : Prop :=
  exists p, currentPiece s = Some p /\
    forall row col, occupied (shape p) row col ->
      0 <= currentX s + Z.of_nat col < BOARD_WIDTH /\
      currentY s + Z.of_nat row < BOARD_HEIGHT /\
      (0 <= currentY s + Z.of_nat row ->
       cellTruthy (boardCell (board s) (currentY s + Z.of_nat row)
                     (currentX s + Z.of_nat col)) = false).

(** What holds of the variables while a game is running. *)
Record Inv (s : Game) : Prop := mkInv {
  inv_board : wellFormed (board s);
  inv_nofull : fullCount (board s) = 0%nat;
  inv_piece : exists p, currentPiece s = Some p /\ goodShape (shape p) /\
    isValidPosition (board s) (shape p) (currentX s) (currentY s) = Ok true;
  inv_y : 0 <= currentY s;
  inv_next : 0 <= nextPieceIndex s < 7
}.

(** The level is the one the number of cleared lines gives. *)
Definition levelOk (s : Game) : Prop := level s = lines s / 10 + 1.

(** A rotation attempt in state [s] finds a kick offset at which the
    rotated matrix fits. *)
Definition kickFound (s : Game) : Prop :=
  exists p rotated k,
    currentPiece s = Some p /\ rotate (shape p) = Ok rotated /\ In k kicks /\
    isValidPosition (board s) rotated (currentX s + k) (currentY s) = Ok true.

(** The two states agree on every variable but those of the active and
    the next piece ([currentPiece], [currentX], [currentY],
    [nextPieceIndex]) and the count of random draws. *)
Definition pieceOnly (s t : Game) : Prop :=
  board t = board s /\ score t = score s /\ lines t = lines s /\
  level t = level s /\ highScore t = highScore s /\
  gameRunning t = gameRunning s /\ gamePaused t = gamePaused s /\
  hsFile t = hsFile s /\ startPending t = startPending s /\
  exited t = exited s.

(** The matrix, placed with its origin [dy] rows above and [dx] columns
    left of a board cell, has an occupied cell on it. *)
Definition covers (sh : Shape) (dy dx : Z) : bool :=
  (0 <=? dy) && (0 <=? dx) && truthy (cellAt sh (Z.to_nat dy) (Z.to_nat dx)).

(** The number of occupied cells of a matrix. *)
Definition countCells (sh : Shape) : nat :=
  List.length (filter truthy (List.concat sh)).

(** The matrix after a rotation, when [rotate] returns one. *)
Definition turned (sh : Shape) : Shape :=
  match rotate sh with
  | Ok m => m
  | _ => sh
  end.

(** The four orientations of a piece of the catalog. *)
Definition orientations (q : Piece) : list Shape :=
  [shape q; turned (shape q); turned (turned (shape q));
   turned (turned (turned (shape q)))].

(** The active piece is a piece of the catalog in one of its four
    orientations, with the colour and the character it came with. *)
Definition fromCatalog (p : Piece) : Prop :=
  exists q, In q PIECES /\ In (shape p) (orientations q) /\
    color p = color q /\ char p = char q.

(** Keys by what [handleInput] does with them. *)
Definition isRestartKey (ev : event) : bool :=
  match ev with
  | Keypress (Some k) => keyIs "r" k || keyIs "R" k
  | _ => false
  end.

Definition isPauseKey (ev : event) : bool :=
  match ev with
  | Keypress (Some k) => keyIs "p" k || keyIs "P" k
  | _ => false
  end.

(** What is known of the high-score variable and file after some
    callbacks: the variable is the same, the file is the same or holds an
    integer above the variable. *)
Definition storeStep (s s' : Game) : Prop :=
  highScore s' = highScore s /\
  (hsFile s' = hsFile s \/
   exists n, hsFile s' = Some (Int n) /\ highScore s < n).

(** ** Sample games *)

(** The state after the events [evs], when they all return. *)
Definition after (evs : list event) (s : Game) : Game :=
  match run 41 evs s with
  | Ok s' => s'
  | _ => s
  end.

(** A process started without a high-score file in which every draw gives
    the piece of index [i]; the first key press has started the game. *)
Definition started (i : nat) : Game :=
  after [Keypress None] (main None (fun _ => i)).

(** The same game with a board whose top row is full of cells of the
    first piece of the catalog. *)
Definition jammed : Game :=
  set_board
    (repeat (Ref (hd (mkPiece [] EmptyString EmptyString) PIECES)) 10
       :: repeat emptyRow 19)
    (started 0).

(** Two games in one process.  The draws give I, I, O, I, I and then O
    pieces in the first game, I, I, O and then O pieces in the second. *)
Definition twoGamesDraws (n : nat) : nat :=
  nth n [0; 0; 1; 0; 0; 1; 1; 1; 1; 1; 1; 1; 1; 1; 1; 1; 1; 0; 0]%nat 1%nat.

Definition key (name : string) : event := Keypress (Some name).

(** Two I pieces and an O piece side by side on the floor. *)
Definition fillRow : list event :=
  [key "a"; key "a"; key "a"; key "space";
   key "d"; key "space";
   key "d"; key "d"; key "d"; key "d"; key "space"].

(** The last piece of [fillRow] moved over its place but not dropped. *)
Definition fillRowBut : list event :=
  [key "a"; key "a"; key "a"; key "space";
   key "d"; key "space";
   key "d"; key "d"; key "d"; key "d"].

(** Ten pieces dropped where they spawn. *)
Definition stackUp : list event := repeat (key "space") 10.

(** First game: two rows cleared one at a time, then the stack reaches the
    top. *)
Definition firstGame : list event :=
  [Keypress None] ++ fillRow ++
  [key "a"; key "a"; key "a"; key "space"; key "d"; key "space"] ++ stackUp.

(** Second game, after a restart: one row cleared, then the top again. *)
Definition secondGame : list event :=
  [key "r"] ++ fillRow ++ stackUp.

(** The first game one hard drop before its end, and at its end. *)
Definition almostOver : Game :=
  after ([Keypress None] ++ fillRow ++
         [key "a"; key "a"; key "a"; key "space"; key "d"; key "space"] ++
         repeat (key "space") 9)
    (main None twoGamesDraws).

Definition gameOverState : Game :=
  after firstGame (main None twoGamesDraws).

(** * Properties *)

(** Reading a variable after assignments: reduces the projections of
    [Game] applied to the setters, and nothing else. *)
Ltac fields :=
  cbn [board currentPiece currentX currentY score lines level highScore
       gameRunning gamePaused nextPieceIndex hsFile entropy drawn
       startPending exited
       set_board set_currentPiece set_currentX set_currentY set_score
       set_lines set_level set_highScore set_gameRunning set_gamePaused
       set_nextPieceIndex set_hsFile set_drawn set_startPending set_exited
       shape color char fst snd bind].

Tactic Notation "fields" "in" hyp(H) :=
  cbn [board currentPiece currentX currentY score lines level highScore
       gameRunning gamePaused nextPieceIndex hsFile entropy drawn
       startPending exited
       set_board set_currentPiece set_currentX set_currentY set_score
       set_lines set_level set_highScore set_gameRunning set_gamePaused
       set_nextPieceIndex set_hsFile set_drawn set_startPending set_exited
       shape color char fst snd bind] in H.

(** ** [isValidPosition] *)

Lemma validRow_spec (b : Board) (x y : Z) (row : nat) :
  tall b ->
  forall (r : list Z) (col : nat),
  exists v, validRow b x y row col r = Ok v /\
    (v = false <->
     exists j, truthy (nth j r 0) = true /\ blocked b x y row (col + j)).
Proof.
  intros Hb. induction r as [|c r IH]; intros col.
  - exists true. split; [reflexivity|]. split; [discriminate|].
    intros (j & Hj & _). destruct j; discriminate.
  - assert (Hshift : forall v : bool,
      (v = false <-> exists j, truthy (nth j r 0) = true /\
                               blocked b x y row (S col + j)) ->
      ~ (truthy c = true /\ blocked b x y row col) ->
      (v = false <-> exists j, truthy (nth j (c :: r) 0) = true /\
                               blocked b x y row (col + j))).
    { intros v Hv Hn. rewrite Hv. split.
      - intros (j & H1 & H2). exists (S j). split; [exact H1|].
        replace (col + S j)%nat with (S col + j)%nat by lia. exact H2.
      - intros ([|j] & H1 & H2).
        + exfalso. apply Hn. split; [exact H1|].
          replace (col + 0)%nat with col in H2 by lia. exact H2.
        + exists j. split; [exact H1|].
          replace (S col + j)%nat with (col + S j)%nat by lia. exact H2. }
    simpl validRow. destruct (truthy c) eqn:Hc.
    + destruct ((x + Z.of_nat col <? 0) || (x + Z.of_nat col >=? BOARD_WIDTH)
                || (y + Z.of_nat row >=? BOARD_HEIGHT)) eqn:Hout.
      * exists false. split; [reflexivity|]. split; [|reflexivity].
        intros _. exists 0%nat. split; [exact Hc|].
        replace (col + 0)%nat with col by lia. unfold blocked.
        apply orb_true_iff in Hout. destruct Hout as [Hout|Hout].
        -- apply orb_true_iff in Hout. destruct Hout as [Hout|Hout]; lia.
        -- lia.
      * apply orb_false_iff in Hout. destruct Hout as [Hout Hh].
        apply orb_false_iff in Hout. destruct Hout as [Hl Hr].
        destruct (y + Z.of_nat row >=? 0) eqn:Hy.
        -- destruct (nth_error b (Z.to_nat (y + Z.of_nat row))) as [brow|] eqn:Hrow.
           ++ destruct (cellTruthy (nth (Z.to_nat (x + Z.of_nat col)) brow Hole))
                eqn:Hcell.
              ** exists false. split; [reflexivity|]. split; [|reflexivity].
                 intros _. exists 0%nat. split; [exact Hc|].
                 replace (col + 0)%nat with col by lia. unfold blocked, boardCell.
                 right. right. right. split; [lia|].
                 rewrite (nth_error_nth _ _ _ Hrow). exact Hcell.
              ** destruct (IH (S col)) as (v & Hv & Hiff). exists v.
                 split; [exact Hv|]. apply Hshift; [exact Hiff|].
                 intros (_ & Hbl). unfold blocked, boardCell in Hbl.
                 rewrite (nth_error_nth _ _ _ Hrow) in Hbl.
                 destruct Hbl as [H|[H|[H|[_ H]]]]; try lia. congruence.
           ++ exfalso. apply nth_error_None in Hrow. unfold tall in Hb. lia.
        -- destruct (IH (S col)) as (v & Hv & Hiff). exists v.
           split; [exact Hv|]. apply Hshift; [exact Hiff|].
           intros (_ & Hbl). unfold blocked in Hbl.
           destruct Hbl as [H|[H|[H|[H _]]]]; lia.
    + destruct (IH (S col)) as (v & Hv & Hiff). exists v.
      split; [exact Hv|]. apply Hshift; [exact Hiff|].
      intros (H & _). congruence.
Qed.

Lemma validRows_spec (b : Board) (x y : Z) :
  tall b ->
  forall (sh : Shape) (row : nat),
  exists v, validRows b x y row sh = Ok v /\
    (v = false <->
     exists i j, occupied sh i j /\ blocked b x y (row + i) j).
Proof.
  intros Hb. induction sh as [|r sh IH]; intros row.
  - exists true. split; [reflexivity|]. split; [discriminate|].
    intros (i & j & Ho & _). unfold occupied, cellAt in Ho.
    destruct i; destruct j; discriminate.
  - simpl validRows.
    destruct (validRow_spec b x y row Hb r 0%nat) as (v & Hv & Hiff).
    rewrite Hv. simpl bind. destruct v.
    + destruct (IH (S row)) as (w & Hw & Hiff'). exists w.
      split; [exact Hw|]. rewrite Hiff'. split.
      * intros (i & j & Ho & Hbl). exists (S i), j. split; [exact Ho|].
        replace (row + S i)%nat with (S row + i)%nat by lia. exact Hbl.
      * intros ([|i] & j & Ho & Hbl).
        -- assert (true = false); [|discriminate]. apply Hiff.
           exists j. split; [exact Ho|].
           replace (row + 0)%nat with row in Hbl by lia. exact Hbl.
        -- exists i, j. split; [exact Ho|].
           replace (S row + i)%nat with (row + S i)%nat by lia. exact Hbl.
    + exists false. split; [reflexivity|]. split; [|reflexivity].
      intros _. destruct Hiff as [Hiff _].
      destruct (Hiff eq_refl) as (j & Hj & Hbl).
      exists 0%nat, j. split; [exact Hj|].
      replace (row + 0)%nat with row by lia. exact Hbl.
Qed.

(** C1.  On a board of [BOARD_HEIGHT] rows [isValidPosition] returns, and
    it returns [false] exactly when some occupied cell of the matrix maps
    to a column outside [[0, BOARD_WIDTH)], to a row at or below
    [BOARD_HEIGHT], or to a row that is not negative and whose board cell
    is occupied.  A placement whose occupied cells all have columns in
    range and rows above the floor, each row negative or on an empty cell,
    is accepted. *)
Theorem isValidPosition_spec (b : Board) (sh : Shape) (x y : Z) :
  tall b ->
  exists v, isValidPosition b sh x y = Ok v /\
    (v = false <->
     exists row col, occupied sh row col /\
       (x + Z.of_nat col < 0 \/ BOARD_WIDTH <= x + Z.of_nat col \/
        BOARD_HEIGHT <= y + Z.of_nat row \/
        (0 <= y + Z.of_nat row /\
         cellTruthy (boardCell b (y + Z.of_nat row) (x + Z.of_nat col)) = true))) /\
    ((forall row col, occupied sh row col ->
        0 <= x + Z.of_nat col < BOARD_WIDTH /\
        y + Z.of_nat row < BOARD_HEIGHT /\
        (y + Z.of_nat row < 0 \/
         cellTruthy (boardCell b (y + Z.of_nat row) (x + Z.of_nat col)) = false)) ->
     v = true).
Proof.
  intros Hb. destruct (validRows_spec b x y Hb sh 0%nat) as (v & Hv & Hiff).
  exists v. split; [exact Hv|]. split.
  - exact Hiff.
  - intros Hall. destruct v; [reflexivity|]. destruct Hiff as [Hiff _].
    destruct (Hiff eq_refl) as (row & col & Ho & Hbl).
    destruct (Hall row col Ho) as (Hx & Hy & Hc). simpl in Hbl.
    destruct Hbl as [H|[H|[H|[H1 H2]]]]; try lia.
    destruct Hc as [Hc|Hc]; [lia|congruence].
Qed.

(** ** Array writes *)

Section SetAt.
Context {A : Type}.
Local Open Scope nat_scope.

Lemma set_at_length (pad v : A) (l : list A) (n : nat) :
  n < List.length l -> List.length (set_at pad n v l) = List.length l.
Proof.
  revert n. induction l as [|h t IH]; intros [|n] H; simpl in *; try lia.
  rewrite IH; lia.
Qed.

Lemma set_at_nth_same (pad v d : A) (l : list A) (n : nat) :
  n < List.length l -> nth n (set_at pad n v l) d = v.
Proof.
  revert n. induction l as [|h t IH]; intros [|n] H; simpl in *; try lia.
  - reflexivity.
  - apply IH. lia.
Qed.

Lemma set_at_nth_other (pad v d : A) (l : list A) (n m : nat) :
  n < List.length l -> n <> m -> nth m (set_at pad n v l) d = nth m l d.
Proof.
  revert n m. induction l as [|h t IH]; intros [|n] [|m] H Hne; simpl in *;
    try lia; try reflexivity.
  apply IH; lia.
Qed.

Lemma set_at_Forall (P : A -> Prop) (pad v : A) (l : list A) (n : nat) :
  n < List.length l -> P v -> Forall P l -> Forall P (set_at pad n v l).
Proof.
  revert n. induction l as [|h t IH]; intros [|n] H Hv Hl; simpl in *; try lia;
    inversion Hl; subst; constructor; auto.
  apply IH; auto. lia.
Qed.
End SetAt.

(** ** Rotation *)

Section Rotation.
Local Open Scope nat_scope.

Lemma rect_row (R C : nat) (m : Shape) (i : nat) :
  rect R C m -> i < R -> List.length (nth i m []) = C.
Proof.
  intros [HR HC] Hi. rewrite Forall_forall in HC. apply HC.
  apply nth_In. lia.
Qed.

Lemma rect_ext (R C : nat) (m m' : Shape) :
  rect R C m -> rect R C m' ->
  (forall i j, i < R -> j < C -> cellAt m i j = cellAt m' i j) ->
  m = m'.
Proof.
  intros Hm Hm' Hcells.
  apply (nth_ext m m' [] []); [destruct Hm, Hm'; congruence|].
  intros i Hi. assert (HiR : i < R) by (destruct Hm; lia).
  apply (nth_ext _ _ 0%Z 0%Z).
  - rewrite (rect_row R C m), (rect_row R C m'); auto.
  - intros j Hj. rewrite (rect_row R C m) in Hj by auto.
    apply Hcells; auto.
Qed.

Lemma set2_rect (R C : nat) (m : Shape) (i j : nat) (v : Z) :
  rect R C m -> i < R -> j < C -> rect R C (set2 i j v m).
Proof.
  intros Hm Hi Hj. unfold set2.
  destruct (nth_error m i) as [r|] eqn:Hr; [|exact Hm].
  assert (Hlen : List.length r = C).
  { rewrite <- (rect_row R C m i Hm Hi). f_equal. symmetry.
    apply nth_error_nth. exact Hr. }
  destruct Hm as [HR HC]. split.
  - rewrite set_at_length; lia.
  - apply set_at_Forall; [lia| |exact HC].
    rewrite set_at_length; lia.
Qed.

Lemma set2_cellAt (R C : nat) (m : Shape) (i j i' j' : nat) (v : Z) :
  rect R C m -> i < R -> j < C ->
  cellAt (set2 i j v m) i' j' =
  if (i =? i') && (j =? j') then v else cellAt m i' j'.
Proof.
  intros Hm Hi Hj. unfold set2, cellAt.
  assert (Hlen : i < List.length m) by (destruct Hm; lia).
  destruct (nth_error m i) as [r|] eqn:Hr;
    [|apply nth_error_None in Hr; lia].
  assert (Hnth : nth i m [] = r) by (apply nth_error_nth; exact Hr).
  assert (Hrl : List.length r = C).
  { rewrite <- Hnth. apply (rect_row R C); auto. }
  destruct (Nat.eqb_spec i i') as [<-|Hne]; simpl.
  - rewrite set_at_nth_same by exact Hlen.
    destruct (Nat.eqb_spec j j') as [<-|Hne'].
    + apply set_at_nth_same. lia.
    + rewrite set_at_nth_other by lia. rewrite Hnth. reflexivity.
  - rewrite set_at_nth_other by lia. reflexivity.
Qed.

(** The inner loop of the fill: one source row is written into column
    [jj] of [rotated]. *)
Lemma fill_inner (f : nat -> Z) (R C jj : nat) :
  jj < C ->
  forall (cs : list nat) (m : Shape),
  rect R C m -> Forall (fun c => c < R) cs ->
  rect R C (fold_left (fun rot col => set2 col jj (f col) rot) cs m) /\
  forall c j,
    cellAt (fold_left (fun rot col => set2 col jj (f col) rot) cs m) c j =
    if (j =? jj) && existsb (Nat.eqb c) cs then f c else cellAt m c j.
Proof.
  intros Hjj. induction cs as [|a cs IH]; intros m Hm Hcs.
  - simpl. split; [exact Hm|]. intros c j. rewrite andb_false_r. reflexivity.
  - inversion Hcs as [|? ? Ha Hcs']; subst. simpl fold_left.
    destruct (IH (set2 a jj (f a) m)) as [Hrect Hcell].
    { apply set2_rect; auto. }
    { exact Hcs'. }
    split; [exact Hrect|]. intros c j. rewrite Hcell.
    rewrite (set2_cellAt R C) by auto. simpl existsb.
    destruct (Nat.eqb_spec j jj) as [->|Hj]; simpl.
    + destruct (existsb (Nat.eqb c) cs); simpl.
      * rewrite orb_true_r. reflexivity.
      * rewrite orb_false_r. rewrite Nat.eqb_refl, andb_true_r.
        rewrite (Nat.eqb_sym c a).
        destruct (Nat.eqb_spec a c) as [->|]; reflexivity.
    + rewrite (proj2 (Nat.eqb_neq jj j)) by lia.
      rewrite andb_false_r. reflexivity.
Qed.

Lemma existsb_seq (c n : nat) :
  existsb (Nat.eqb c) (seq 0 n) = (c <? n).
Proof.
  destruct (Nat.ltb_spec c n) as [H|H].
  - apply existsb_exists. exists c. split; [apply in_seq; lia|].
    apply Nat.eqb_refl.
  - destruct (existsb (Nat.eqb c) (seq 0 n)) eqn:E; [|reflexivity].
    apply existsb_exists in E. destruct E as (x & Hx & Heq).
    apply in_seq in Hx. apply Nat.eqb_eq in Heq. lia.
Qed.

Lemma seq_below (n : nat) : Forall (fun c => c < n) (seq 0 n).
Proof. apply Forall_forall. intros x Hx. apply in_seq in Hx. lia. Qed.

(** The outer loop, over any list of source rows. *)
Lemma fill_outer (sh : Shape) (rows cols : nat) :
  forall (rs : list nat) (m : Shape),
  rect cols rows m -> Forall (fun r => r < rows) rs ->
  let body := fun rot row =>
    fold_left
      (fun rot col => set2 col (rows - 1 - row) (cellAt sh row col) rot)
      (seq 0 cols) rot in
  rect cols rows (fold_left body rs m) /\
  forall c j,
    cellAt (fold_left body rs m) c j =
    if (c <? cols) && existsb (fun row => rows - 1 - row =? j) rs
    then cellAt sh (rows - 1 - j) c else cellAt m c j.
Proof.
  induction rs as [|a rs IH]; intros m Hm Hrs body.
  - simpl. split; [exact Hm|]. intros c j. rewrite andb_false_r. reflexivity.
  - inversion Hrs as [|? ? Ha Hrs']; subst. simpl fold_left.
    destruct (fill_inner (cellAt sh a) cols rows (rows - 1 - a)) with
      (cs := seq 0 cols) (m := m) as [Hrect Hcell];
      [lia|exact Hm|apply seq_below|].
    destruct (IH (body m a) Hrect Hrs') as [Hrect' Hcell'].
    split; [exact Hrect'|]. intros c j.
    fold body. rewrite Hcell'. unfold body. rewrite Hcell.
    rewrite existsb_seq. simpl existsb.
    destruct (c <? cols); simpl; [|rewrite andb_false_r; reflexivity].
    destruct (existsb (fun row => rows - 1 - row =? j) rs).
    + rewrite orb_true_r. reflexivity.
    + rewrite orb_false_r, andb_true_r. rewrite (Nat.eqb_sym j).
      destruct (Nat.eqb_spec (rows - 1 - a) j) as [<-|]; [|reflexivity].
      replace (rows - 1 - (rows - 1 - a)) with a by lia. reflexivity.
Qed.

Lemma repeat_rect (R C : nat) : rect R C (repeat (repeat 0%Z C) R).
Proof.
  split; [apply repeat_length|]. apply Forall_forall. intros r Hr.
  apply repeat_spec in Hr. subst. apply repeat_length.
Qed.

(** What [rotate] computes on a rectangular matrix. *)
Lemma rotate_spec (R C : nat) (sh : Shape) :
  0 < R -> rect R C sh ->
  exists m, rotate sh = Ok m /\ rect C R m /\
    forall c j, c < C -> j < R -> cellAt m c j = cellAt sh (R - 1 - j) c.
Proof.
  intros HR Hsh. destruct sh as [|r0 sh'].
  { destruct Hsh as [Hl _]. simpl in Hl. lia. }
  set (sh := r0 :: sh') in *.
  change (rotate sh) with
    (Ok (rotateFill sh (List.length sh) (List.length r0)
           (repeat (repeat 0%Z (List.length sh)) (List.length r0)))).
  assert (HlenR : List.length sh = R) by (destruct Hsh; assumption).
  assert (HlenC : List.length r0 = C).
  { rewrite <- (rect_row R C sh 0 Hsh HR). reflexivity. }
  rewrite HlenR, HlenC. eexists. split; [reflexivity|].
  destruct (fill_outer sh R C (seq 0 R) (repeat (repeat 0%Z R) C))
    as [Hrect Hcell]; [apply repeat_rect|apply seq_below|].
  split; [exact Hrect|]. intros c j Hc Hj. unfold rotateFill.
  rewrite Hcell. rewrite (proj2 (Nat.ltb_lt c C) Hc). simpl.
  assert (E : existsb (fun row => R - 1 - row =? j) (seq 0 R) = true).
  { apply existsb_exists. exists (R - 1 - j). split; [apply in_seq; lia|].
    apply Nat.eqb_eq. lia. }
  rewrite E. reflexivity.
Qed.

Lemma rotate_four (R C : nat) (sh : Shape) :
  0 < R -> 0 < C -> rect R C sh ->
  exists m1 m2 m3,
    rotate sh = Ok m1 /\ rotate m1 = Ok m2 /\ rotate m2 = Ok m3 /\
    rotate m3 = Ok sh.
Proof.
  intros HR HC Hsh.
  destruct (rotate_spec R C sh HR Hsh) as (m1 & E1 & H1 & C1).
  destruct (rotate_spec C R m1 HC H1) as (m2 & E2 & H2 & C2).
  destruct (rotate_spec R C m2 HR H2) as (m3 & E3 & H3 & C3).
  destruct (rotate_spec C R m3 HC H3) as (m4 & E4 & H4 & C4).
  exists m1, m2, m3. repeat split; try assumption.
  rewrite E4. f_equal. apply (rect_ext R C); auto.
  intros i j Hi Hj.
  rewrite C4, C3, C2, C1 by lia. f_equal; lia.
Qed.
End Rotation.

(** ** [clearLines] *)

Section ClearLines.
Local Open Scope nat_scope.

Lemma emptyRow_not_full : rowFull emptyRow = false.
Proof. reflexivity. Qed.

Lemma repeat_snoc {A : Type} (x : A) (n : nat) :
  repeat x n ++ [x] = x :: repeat x n.
Proof. induction n; simpl; [reflexivity|]. rewrite IHn. reflexivity. Qed.

Lemma fullCount_app (b1 b2 : Board) :
  fullCount (b1 ++ b2) = fullCount b1 + fullCount b2.
Proof. unfold fullCount. rewrite filter_app, length_app. reflexivity. Qed.

Lemma keptRows_app (b1 b2 : Board) :
  keptRows (b1 ++ b2) = keptRows b1 ++ keptRows b2.
Proof. apply filter_app. Qed.

Lemma splice1_last (pre suf : Board) (r : list cell) :
  splice1 (List.length pre) ((pre ++ [r]) ++ suf) = pre ++ suf.
Proof.
  unfold splice1. induction pre as [|a pre IH]; simpl; [reflexivity|].
  f_equal. exact IH.
Qed.

Lemma fullCount_cons (r : list cell) (b : Board) :
  fullCount (r :: b) = (if rowFull r then 1 else 0) + fullCount b.
Proof. unfold fullCount. simpl. destruct (rowFull r); reflexivity. Qed.

Lemma keptRows_cons (r : list cell) (b : Board) :
  keptRows (r :: b) = (if rowFull r then [] else [r]) ++ keptRows b.
Proof. unfold keptRows. simpl. destruct (rowFull r); reflexivity. Qed.

(** One evaluation of the loop condition with the last row of [pre]
    under examination. *)
Lemma clearLoop_step (fuel : nat) (pre suf : Board) (r : list cell) (n : nat) :
  clearLoop (S fuel) (Z.of_nat (List.length (pre ++ [r])) - 1)
    ((pre ++ [r]) ++ suf) n =
  if rowFull r
  then clearLoop fuel (Z.of_nat (List.length (emptyRow :: pre)) - 1)
         ((emptyRow :: pre) ++ suf) (S n)
  else clearLoop fuel (Z.of_nat (List.length pre) - 1) (pre ++ r :: suf) n.
Proof.
  rewrite length_app. simpl List.length.
  replace (Z.of_nat (List.length pre + 1) - 1)%Z
    with (Z.of_nat (List.length pre)) by lia.
  replace (Z.of_nat (S (List.length pre)) - 1)%Z
    with (Z.of_nat (List.length pre)) by lia.
  simpl clearLoop.
  replace (Z.of_nat (List.length pre) >=? 0)%Z with true
    by (symmetry; apply Z.geb_le; lia).
  rewrite Nat2Z.id, splice1_last.
  rewrite <- app_assoc, nth_error_app2, Nat.sub_diag by lia.
  simpl. reflexivity.
Qed.

(** The loop, entered with the rows [pre] still to examine (from the
    last one up) above the rows [suf] already examined. *)
Lemma clearLoop_spec (fuel : nat) :
  forall (pre suf : Board) (n : nat),
  List.length pre + fullCount pre < fuel ->
  clearLoop fuel (Z.of_nat (List.length pre) - 1) (pre ++ suf) n =
  Ok (repeat emptyRow (fullCount pre) ++ keptRows pre ++ suf,
      n + fullCount pre).
Proof.
  induction fuel as [|fuel IH]; intros pre suf n Hfuel; [lia|].
  revert Hfuel. induction pre as [|r pre' _] using rev_ind; intros Hfuel.
  - cbn. rewrite Nat.add_0_r. reflexivity.
  - rewrite clearLoop_step.
    rewrite fullCount_app, keptRows_app, fullCount_cons, keptRows_cons in *.
    rewrite length_app in Hfuel. simpl List.length in Hfuel.
    change (fullCount []) with 0 in *. change (keptRows []) with (@nil (list cell)).
    destruct (rowFull r) eqn:Hr.
    + rewrite IH.
      * rewrite fullCount_cons, keptRows_cons, emptyRow_not_full.
        rewrite !app_nil_r. simpl app. f_equal. f_equal.
        -- change (emptyRow :: keptRows pre' ++ suf)
             with ([emptyRow] ++ keptRows pre' ++ suf).
           rewrite app_assoc, repeat_snoc.
           replace (fullCount pre' + 1) with (S (fullCount pre')) by lia.
           reflexivity.
        -- lia.
      * rewrite fullCount_cons, emptyRow_not_full. simpl List.length. lia.
    + rewrite IH by lia. simpl plus. rewrite !Nat.add_0_r, app_nil_r.
      rewrite <- !app_assoc. reflexivity.
Qed.

Lemma fullCount_le (b : Board) : fullCount b <= List.length b.
Proof. apply filter_length_le. Qed.

Lemma fullCount_keptRows (b : Board) :
  fullCount b + List.length (keptRows b) = List.length b.
Proof.
  unfold fullCount, keptRows. induction b as [|r b IH]; simpl; [reflexivity|].
  destruct (rowFull r); simpl; lia.
Qed.

(** With [2 * BOARD_HEIGHT + 1] evaluations of its condition the loop
    always finishes on a board of [BOARD_HEIGHT] rows. *)
Lemma clearLoop_board (fuel : nat) (b : Board) :
  tall b -> 41 <= fuel ->
  clearLoop fuel (BOARD_HEIGHT - 1) b 0 =
  Ok (repeat emptyRow (fullCount b) ++ keptRows b, fullCount b).
Proof.
  intros Hb Hfuel. unfold tall in Hb.
  pose proof (clearLoop_spec fuel b [] 0) as H.
  rewrite Hb, !app_nil_r in H. apply H.
  pose proof (fullCount_le b). unfold BOARD_HEIGHT in Hb. lia.
Qed.
End ClearLines.

Section ClearLinesClaim.
Local Open Scope nat_scope.

Lemma rowFull_rowOccupied (r : list cell) :
  Forall (fun c => c <> Hole) r -> rowFull r = rowOccupied r.
Proof.
  induction 1 as [|c r Hc _ IH]; [reflexivity|].
  unfold rowFull, rowOccupied in *. simpl. rewrite IH.
  destruct c; try reflexivity. congruence.
Qed.

Lemma fullCount_occupied (b : Board) :
  Forall wfRow b -> fullCount b = List.length (filter rowOccupied b).
Proof.
  intros Hb. unfold fullCount. f_equal. apply filter_ext_in.
  intros r Hr. rewrite Forall_forall in Hb.
  apply rowFull_rowOccupied, (Hb r Hr).
Qed.

Lemma keptRows_occupied (b : Board) :
  Forall wfRow b -> keptRows b = filter (fun r => negb (rowOccupied r)) b.
Proof.
  intros Hb. unfold keptRows. apply filter_ext_in.
  intros r Hr. rewrite Forall_forall in Hb. f_equal.
  apply rowFull_rowOccupied, (Hb r Hr).
Qed.

(** What [clearLines] returns, with the state it leaves. *)
Lemma clearLines_eq (fuel : nat) (s : Game) :
  tall (board s) -> 41 <= fuel ->
  clearLines fuel s =
  let k := fullCount (board s) in
  let s1 := set_board (repeat emptyRow k ++ keptRows (board s)) s in
  Ok (Undefined,
      if 0 <? k
      then set_level ((lines s + Z.of_nat k) / 10 + 1)
             (set_lines (lines s + Z.of_nat k)
                (set_score (num_add (score s) (pointsFor k (level s))) s1))
      else s1).
Proof.
  intros Hb Hfuel. unfold clearLines, tally.
  rewrite (clearLoop_board fuel (board s) Hb Hfuel). simpl bind.
  destruct (0 <? fullCount (board s)); reflexivity.
Qed.

(** Filtering a list whose elements satisfy [f] exactly on the index
    band [[a, c)]. *)
Lemma filter_band {A : Type} (f : A -> bool) (d : A) :
  forall (l : list A) (a c : nat),
  a <= c ->
  (forall i, i < List.length l -> f (nth i l d) = (a <=? i) && (i <? c)) ->
  filter f l = firstn (c - a) (skipn a l) /\
  filter (fun x => negb (f x)) l = firstn a l ++ skipn c l.
Proof.
  induction l as [|x l IH]; intros a c Hac Hf.
  - rewrite !skipn_nil, !firstn_nil. split; reflexivity.
  - assert (Hx := Hf 0 ltac:(simpl; lia)). simpl nth in Hx.
    destruct (IH (a - 1) (c - 1) ltac:(lia)) as [IH1 IH2].
    { intros i Hi. specialize (Hf (S i) ltac:(simpl; lia)). simpl nth in Hf.
      rewrite Hf. f_equal.
      - destruct (Nat.leb_spec a (S i)), (Nat.leb_spec (a - 1) i);
          try reflexivity; lia.
      - destruct (Nat.ltb_spec (S i) c), (Nat.ltb_spec i (c - 1));
          try reflexivity; lia. }
    simpl filter. rewrite Hx, IH1, IH2.
    destruct a as [|a]; destruct c as [|c]; try lia; simpl;
      rewrite ?Nat.sub_0_r; split; reflexivity.
Qed.

Lemma decide_row (v : bool) (P : Prop) :
  (v = true <-> P) -> (P -> v = true) /\ (~ P -> v = false).
Proof.
  intros [H1 H2]. split; [exact H2|]. intros Hn.
  destruct v; [exfalso; auto|reflexivity].
Qed.
End ClearLinesClaim.

(** C2.  On a well-formed board [clearLines] removes every row all of
    whose cells are occupied and puts one empty row on top for each, the
    other rows keeping their order, however many rows are full at once.
    When rows 5, 6, 7 and 8 are the full ones, the four top rows of the
    result are empty, rows 0..4 have moved down by four, rows 9..19 are
    where they were, and the score has grown by [1000 * level]. *)
Theorem clearLines_spec (fuel : nat) (s : Game) :
  wellFormed (board s) -> (41 <= fuel)%nat ->
  exists s', clearLines fuel s = Ok (Undefined, s') /\
    board s' =
      repeat emptyRow (List.length (filter rowOccupied (board s))) ++
      filter (fun r => negb (rowOccupied r)) (board s) /\
    ((forall i, (i < 20)%nat ->
        rowOccupied (nth i (board s) []) = true <-> (5 <= i <= 8)%nat) ->
     (forall i, (i < 4)%nat -> nth i (board s') [] = emptyRow) /\
     (forall i, (i < 5)%nat -> nth (i + 4) (board s') [] = nth i (board s) []) /\
     (forall i, (9 <= i < 20)%nat -> nth i (board s') [] = nth i (board s) []) /\
     score s' = num_add (score s) (Int (1000 * level s))).
Proof.
  intros [Hb Hrows] Hfuel. rewrite (clearLines_eq fuel s Hb Hfuel).
  cbv zeta. eexists. split; [reflexivity|].
  assert (Hboard : forall s1 s2 : Game,
    board s1 = board s2 ->
    board (if (0 <? fullCount (board s))%nat then s1 else s2) = board s2).
  { intros s1 s2 E. destruct (0 <? fullCount (board s))%nat; auto. }
  rewrite Hboard by reflexivity. clear Hboard. simpl board.
  pose proof (fullCount_occupied _ Hrows) as Hk.
  rewrite (keptRows_occupied _ Hrows), Hk.
  split; [reflexivity|]. intros Hfull.
  assert (Hlen : List.length (board s) = 20%nat).
  { unfold tall, BOARD_HEIGHT in Hb. lia. }
  destruct (filter_band rowOccupied [] (board s) 5 9) as [Hin Hout]; [lia| |].
  { intros i Hi. rewrite Hlen in Hi.
    destruct (decide_row _ _ (Hfull i Hi)) as [Ht Hf].
    destruct (Nat.leb_spec 5 i), (Nat.ltb_spec i 9); simpl;
      first [apply Ht; lia | apply Hf; lia]. }
  rewrite Hin, Hout, length_firstn, length_skipn, Hlen.
  change (Init.Nat.min (9 - 5) (20 - 5)) with 4%nat.
  repeat split.
  - intros i Hi. rewrite app_nth1 by (rewrite repeat_length; exact Hi).
    apply nth_repeat_lt. exact Hi.
  - intros i Hi. rewrite app_nth2 by (rewrite repeat_length; lia).
    rewrite repeat_length.
    rewrite app_nth1 by (rewrite length_firstn; lia).
    rewrite nth_firstn.
    replace (i + 4 - 4 <? 5)%nat with true by (symmetry; apply Nat.ltb_lt; lia).
    f_equal. lia.
  - intros i Hi. rewrite app_nth2 by (rewrite repeat_length; lia).
    rewrite repeat_length.
    rewrite app_nth2 by (rewrite length_firstn; lia).
    rewrite length_firstn, nth_skipn. f_equal. lia.
Qed.

(** ** [lockPiece] *)

Section Lock.
Local Open Scope nat_scope.

Lemma sameOutside_refl (lo hi : nat) (b : Board) : sameOutside lo hi b b.
Proof. split; auto. Qed.

Lemma sameOutside_trans (lo hi : nat) (b1 b2 b3 : Board) :
  sameOutside lo hi b1 b2 -> sameOutside lo hi b2 b3 -> sameOutside lo hi b1 b3.
Proof.
  intros [L1 H1] [L2 H2]. split; [congruence|].
  intros i Hi. rewrite H2, H1; auto.
Qed.

Lemma sameOutside_widen (lo hi lo' hi' : nat) (b b' : Board) :
  lo' <= lo -> hi <= hi' -> sameOutside lo hi b b' -> sameOutside lo' hi' b b'.
Proof. intros Hlo Hhi [L H]. split; [exact L|]. intros i Hi. apply H. lia. Qed.

Lemma sameOutside_set_at (n : nat) (r : list cell) (b : Board) :
  n < List.length b -> sameOutside n (S n) b (set_at [] n r b).
Proof.
  intros Hn. split; [apply set_at_length; exact Hn|].
  intros i Hi. apply set_at_nth_other; lia.
Qed.

Lemma writeCell_wfRow (boardX : Z) (p : Piece) (brow : list cell) :
  (0 <= boardX < BOARD_WIDTH)%Z -> wfRow brow -> wfRow (writeCell boardX p brow).
Proof.
  intros Hx [Hlen Hcells]. unfold writeCell.
  replace (boardX <? 0)%Z with false by (symmetry; apply Z.ltb_ge; lia).
  assert (Z.to_nat boardX < List.length brow) by lia.
  split.
  - rewrite set_at_length; assumption.
  - apply set_at_Forall; [assumption|discriminate|assumption].
Qed.

Lemma lockRow_ok (p : Piece) (x y : Z) (row : nat) :
  (0 <= y)%Z ->
  forall (r : list Z) (col : nat) (b : Board),
  wellFormed b ->
  (forall j, truthy (nth j r 0%Z) = true ->
     (0 <= x + Z.of_nat (col + j) < BOARD_WIDTH)%Z /\
     (y + Z.of_nat row < BOARD_HEIGHT)%Z) ->
  exists b', lockRow p x y row col r b = Ok b' /\ wellFormed b' /\
    sameOutside (Z.to_nat y + row) (S (Z.to_nat y + row)) b b'.
Proof.
  intros Hy. induction r as [|c r IH]; intros col b Hb Hcells.
  - exists b. split; [reflexivity|]. split; [exact Hb|].
    apply sameOutside_refl.
  - assert (Hrest : forall j, truthy (nth j r 0%Z) = true ->
       (0 <= x + Z.of_nat (S col + j) < BOARD_WIDTH)%Z /\
       (y + Z.of_nat row < BOARD_HEIGHT)%Z).
    { intros j Hj. replace (S col + j) with (col + S j) by lia.
      apply Hcells. exact Hj. }
    simpl lockRow. destruct (truthy c) eqn:Hc; [|apply IH; assumption].
    destruct (Hcells 0 Hc) as [Hx Hh]. rewrite Nat.add_0_r in Hx.
    replace (y + Z.of_nat row >=? 0)%Z with true
      by (symmetry; apply Z.geb_le; lia).
    destruct Hb as [Htall Hrows]. unfold tall in Htall.
    assert (Hn : Z.to_nat (y + Z.of_nat row) < List.length b) by lia.
    destruct (nth_error b (Z.to_nat (y + Z.of_nat row))) as [brow|] eqn:Hrow;
      [|apply nth_error_None in Hrow; lia].
    assert (Hwf : wfRow brow).
    { rewrite Forall_forall in Hrows. apply Hrows.
      apply nth_error_In in Hrow. exact Hrow. }
    destruct (IH (S col)
      (set_at [] (Z.to_nat (y + Z.of_nat row))
         (writeCell (x + Z.of_nat col) p brow) b)) as (b' & Hb' & Hwf' & Hsame).
    + split.
      * unfold tall. rewrite set_at_length; assumption.
      * apply set_at_Forall; [assumption| |assumption].
        apply writeCell_wfRow; assumption.
    + exact Hrest.
    + exists b'. split; [exact Hb'|]. split; [exact Hwf'|].
      apply sameOutside_trans with (2 := Hsame).
      replace (Z.to_nat y + row) with (Z.to_nat (y + Z.of_nat row)) by lia.
      apply sameOutside_set_at. exact Hn.
Qed.

Lemma lockRows_ok (p : Piece) (x y : Z) :
  (0 <= y)%Z ->
  forall (sh : Shape) (row : nat) (b : Board),
  wellFormed b ->
  (forall i j, occupied sh i j ->
     (0 <= x + Z.of_nat j < BOARD_WIDTH)%Z /\
     (y + Z.of_nat (row + i) < BOARD_HEIGHT)%Z) ->
  exists b', lockRows p x y row sh b = Ok b' /\ wellFormed b' /\
    sameOutside (Z.to_nat y + row) (Z.to_nat y + row + List.length sh) b b'.
Proof.
  intros Hy. induction sh as [|r sh IH]; intros row b Hb Hcells.
  - exists b. split; [reflexivity|]. split; [exact Hb|].
    apply sameOutside_refl.
  - simpl lockRows.
    destruct (lockRow_ok p x y row Hy r 0 b Hb) as (b1 & Hb1 & Hwf1 & Hsame1).
    { intros j Hj. specialize (Hcells 0 j Hj).
      rewrite Nat.add_0_r in Hcells. exact Hcells. }
    rewrite Hb1. simpl bind.
    destruct (IH (S row) b1 Hwf1) as (b' & Hb' & Hwf' & Hsame').
    { intros i j Ho. replace (S row + i) with (row + S i) by lia.
      apply Hcells. exact Ho. }
    exists b'. split; [exact Hb'|]. split; [exact Hwf'|].
    simpl List.length.
    apply sameOutside_trans with (b2 := b1).
    + apply sameOutside_widen with (3 := Hsame1); lia.
    + apply sameOutside_widen with (3 := Hsame'); lia.
Qed.

(** A board without full rows has at most [hi - lo] of them after its
    rows in [[lo, hi)] have been rewritten. *)
Lemma fullCount_sameOutside (b : Board) :
  forall (b' : Board) (lo hi : nat),
  sameOutside lo hi b b' -> fullCount b = 0 -> fullCount b' <= hi - lo.
Proof.
  induction b as [|r b IH]; intros b' lo hi [Hlen Hsame] Hfull.
  - destruct b'; [simpl; lia|discriminate].
  - destruct b' as [|r' b']; [discriminate|].
    rewrite fullCount_cons in *.
    destruct (rowFull r) eqn:Hr; [lia|]. simpl in Hfull.
    assert (Htail : sameOutside (lo - 1) (hi - 1) b b').
    { split; [simpl in Hlen; lia|]. intros i Hi.
      apply (Hsame (S i)). lia. }
    specialize (IH b' (lo - 1) (hi - 1) Htail Hfull).
    destruct (rowFull r') eqn:Hr'; [|lia].
    assert (lo = 0 /\ 0 < hi).
    { destruct lo as [|lo].
      - destruct hi as [|hi]; [|lia].
        specialize (Hsame 0 ltac:(lia)). simpl in Hsame. congruence.
      - specialize (Hsame 0 ltac:(lia)). simpl in Hsame. congruence. }
    lia.
Qed.
End Lock.

(** ** Validity and the cells of a placement *)

Lemma valid_not_blocked (b : Board) (sh : Shape) (x y : Z) :
  tall b -> isValidPosition b sh x y = Ok true ->
  forall row col, occupied sh row col -> ~ blocked b x y row col.
Proof.
  intros Hb Hv row col Ho Hbl.
  destruct (validRows_spec b x y Hb sh 0%nat) as (v & Hv' & Hiff).
  unfold isValidPosition in Hv. rewrite Hv in Hv'. inversion Hv'; subst v.
  assert (true = false); [|discriminate].
  apply Hiff. exists row, col. split; [exact Ho|exact Hbl].
Qed.

Lemma valid_outcome (b : Board) (sh : Shape) (x y : Z) :
  tall b -> exists v, isValidPosition b sh x y = Ok v.
Proof.
  intros Hb. destruct (validRows_spec b x y Hb sh 0%nat) as (v & Hv & _).
  exists v. exact Hv.
Qed.

Lemma valid_cells_in_range (b : Board) (sh : Shape) (x y : Z) :
  tall b -> isValidPosition b sh x y = Ok true ->
  forall row col, occupied sh row col ->
    0 <= x + Z.of_nat col < BOARD_WIDTH /\
    y + Z.of_nat row < BOARD_HEIGHT /\
    (0 <= y + Z.of_nat row ->
     cellTruthy (boardCell b (y + Z.of_nat row) (x + Z.of_nat col)) = false).
Proof.
  intros Hb Hv row col Ho.
  pose proof (valid_not_blocked b sh x y Hb Hv row col Ho) as Hn.
  unfold blocked in Hn. cbv zeta in Hn.
  repeat split; try lia.
  intros Hy.
  destruct (cellTruthy (boardCell b (y + Z.of_nat row) (x + Z.of_nat col)));
    [|reflexivity].
  exfalso. apply Hn. right. right. right. split; [exact Hy|reflexivity].
Qed.

(** ** The catalog *)

Lemma goodShape_intro (R C i j : nat) (sh : Shape) :
  (0 < R <= 4)%nat -> (0 < C <= 4)%nat ->
  List.length sh = R -> forallb (fun r => (List.length r =? C)%nat) sh = true ->
  truthy (cellAt sh i j) = true -> goodShape sh.
Proof.
  intros HR HC Hlen Hrows Hocc. exists R, C.
  split; [exact HR|]. split; [exact HC|]. split.
  - split; [exact Hlen|]. apply Forall_forall. intros r Hr.
    rewrite forallb_forall in Hrows. apply Nat.eqb_eq, Hrows, Hr.
  - exists i, j. exact Hocc.
Qed.

Lemma PIECES_good : Forall (fun p => goodShape (shape p)) PIECES.
Proof.
  unfold PIECES. repeat apply Forall_cons; try apply Forall_nil.
  - apply (goodShape_intro 1 4 0 0); try reflexivity; lia.
  - apply (goodShape_intro 2 2 0 0); try reflexivity; lia.
  - apply (goodShape_intro 2 3 1 1); try reflexivity; lia.
  - apply (goodShape_intro 2 3 1 1); try reflexivity; lia.
  - apply (goodShape_intro 2 3 1 1); try reflexivity; lia.
  - apply (goodShape_intro 2 3 1 1); try reflexivity; lia.
  - apply (goodShape_intro 2 3 1 1); try reflexivity; lia.
Qed.

Lemma PIECES_fit_empty_board :
  Forall (fun p =>
    isValidPosition (repeat emptyRow (Z.to_nat BOARD_HEIGHT)) (shape p)
      ((BOARD_WIDTH - Z.of_nat (List.length (hd [] (shape p)))) / 2) 0 = Ok true)
    PIECES.
Proof. unfold PIECES. repeat apply Forall_cons; try apply Forall_nil; reflexivity. Qed.

Lemma PIECES_at_In (i : Z) :
  0 <= i < 7 -> exists p, PIECES_at i = Some p /\ In p PIECES.
Proof.
  intros Hi. unfold PIECES_at.
  replace (i <? 0) with false by (symmetry; apply Z.ltb_ge; lia).
  destruct (nth_error PIECES (Z.to_nat i)) as [p|] eqn:E.
  - exists p. split; [reflexivity|]. apply nth_error_In in E. exact E.
  - apply nth_error_None in E. simpl in E. lia.
Qed.

Lemma goodShape_cons (sh : Shape) :
  goodShape sh -> exists r0 rest, sh = r0 :: rest.
Proof.
  intros (R & C & HR & _ & [Hlen _] & _).
  destruct sh as [|r0 rest]; [simpl in Hlen; lia|]. eauto.
Qed.

(** ** [spawnPiece] *)

Lemma randomIndex_spec (s : Game) :
  exists n : nat,
    (n < 7)%nat /\ randomIndex s = (Z.of_nat n, set_drawn (S (drawn s)) s).
Proof.
  exists (entropy s (drawn s) mod List.length PIECES)%nat.
  split; [|reflexivity]. apply Nat.mod_upper_bound. discriminate.
Qed.

Lemma spawnPiece_spec (s : Game) :
  tall (board s) -> nextPieceIndex s = -1 \/ 0 <= nextPieceIndex s < 7 ->
  exists p ok s',
    spawnPiece s = Ok (ok, s') /\ In p PIECES /\
    isValidPosition (board s) (shape p) (currentX s') (currentY s') = Ok ok /\
    board s' = board s /\ currentPiece s' = Some p /\
    currentX s' = (BOARD_WIDTH - Z.of_nat (List.length (hd [] (shape p)))) / 2 /\
    currentY s' = 0 /\ lines s' = lines s /\ level s' = level s /\
    0 <= nextPieceIndex s' < 7 /\
    gameRunning s' = (gameRunning s && ok)%bool.
Proof.
  intros Hb Hnext. unfold spawnPiece.
  set (s0 := if nextPieceIndex s =? -1
             then let (i, s') := randomIndex s in set_nextPieceIndex i s'
             else s).
  assert (H0 : 0 <= nextPieceIndex s0 < 7 /\ board s0 = board s /\
               lines s0 = lines s /\ level s0 = level s /\
               gameRunning s0 = gameRunning s).
  { unfold s0. destruct (Z.eqb_spec (nextPieceIndex s) (-1)) as [E|E].
    - destruct (randomIndex_spec s) as (n & Hn & ->). simpl. repeat split; lia.
    - repeat split; lia. }
  clearbody s0. destruct H0 as (Hidx & Hb0 & Hl0 & Hv0 & Hr0).
  destruct (randomIndex_spec s0) as (n & Hn & ->).
  destruct (PIECES_at_In _ Hidx) as (p & -> & Hin).
  pose proof PIECES_good as Hgood. rewrite Forall_forall in Hgood.
  destruct (goodShape_cons _ (Hgood p Hin)) as (r0 & rest & Hsh).
  rewrite Hsh. fields. rewrite <- Hsh. rewrite Hb0.
  destruct (valid_outcome (board s) (shape p)
              ((BOARD_WIDTH - Z.of_nat (List.length r0)) / 2) 0 Hb) as (ok & Hok).
  rewrite Hok. fields. exists p, ok.
  assert (Hhd : List.length (hd [] (shape p)) = List.length r0)
    by (rewrite Hsh; reflexivity).
  rewrite Hhd.
  assert (Hover : forall t : Game,
    board (gameOver t) = board t /\ currentPiece (gameOver t) = currentPiece t /\
    currentX (gameOver t) = currentX t /\ currentY (gameOver t) = currentY t /\
    lines (gameOver t) = lines t /\ level (gameOver t) = level t /\
    nextPieceIndex (gameOver t) = nextPieceIndex t /\
    gameRunning (gameOver t) = false).
  { intros t. unfold gameOver, saveHighScore. fields.
    destruct (num_gt _ _); fields; repeat split. }
  destruct ok; eexists; (split; [reflexivity|]).
  - fields. rewrite andb_true_r. repeat split; auto; lia.
  - match goal with |- context [gameOver ?t] =>
      destruct (Hover t) as (-> & -> & -> & -> & -> & -> & -> & ->) end.
    fields. rewrite andb_false_r. repeat split; auto; lia.
Qed.

(** ** [movePiece] *)

Lemma movePiece_spec (dx dy : Z) (s : Game) (p : Piece) :
  tall (board s) -> currentPiece s = Some p ->
  exists ok,
    isValidPosition (board s) (shape p) (currentX s + dx) (currentY s + dy)
      = Ok ok /\
    movePiece dx dy s =
    Ok (ok, if ok
            then set_currentY (currentY s + dy) (set_currentX (currentX s + dx) s)
            else s).
Proof.
  intros Hb Hp. unfold movePiece. rewrite Hp.
  destruct (valid_outcome (board s) (shape p) (currentX s + dx)
              (currentY s + dy) Hb) as (ok & Hok).
  exists ok. split; [exact Hok|]. rewrite Hok. fields.
  destruct ok; reflexivity.
Qed.

Lemma movePiece_inv (dx dy : Z) (s s' : Game) (ok : bool) :
  Inv s -> 0 <= dy -> movePiece dx dy s = Ok (ok, s') -> Inv s'.
Proof.
  intros HI Hdy Hmove. destruct HI as [Hwf Hfull (p & Hp & Hgood & Hvalid) Hy Hn].
  destruct (movePiece_spec dx dy s p (proj1 Hwf) Hp) as (ok' & Hok & Heq).
  rewrite Heq in Hmove. inversion Hmove; subst ok' s'. clear Hmove.
  destruct ok.
  - constructor; fields; try assumption; [|lia].
    exists p. auto.
  - constructor; try assumption. exists p. auto.
Qed.

(** ** [rotatePiece] *)

Lemma occupied_in_range (R C : nat) (sh : Shape) (i j : nat) :
  rect R C sh -> occupied sh i j -> (i < R /\ j < C)%nat.
Proof.
  intros Hsh Ho. unfold occupied, cellAt in Ho.
  destruct (Nat.lt_ge_cases i R) as [Hi|Hi].
  - split; [exact Hi|]. destruct (Nat.lt_ge_cases j C) as [Hj|Hj]; [exact Hj|].
    rewrite nth_overflow in Ho; [discriminate|].
    rewrite (rect_row R C sh i Hsh Hi). exact Hj.
  - rewrite (nth_overflow sh) in Ho by (destruct Hsh; lia).
    destruct j; discriminate.
Qed.

Lemma rotate_good (sh : Shape) :
  goodShape sh -> exists m, rotate sh = Ok m /\ goodShape m.
Proof.
  intros (R & C & HR & HC & Hrect & i & j & Ho).
  destruct (rotate_spec R C sh ltac:(lia) Hrect) as (m & Hm & Hrect' & Hcell).
  exists m. split; [exact Hm|]. exists C, R.
  split; [exact HC|]. split; [exact HR|]. split; [exact Hrect'|].
  destruct (occupied_in_range R C sh i j Hrect Ho) as [Hi Hj].
  exists j, (R - 1 - i)%nat. unfold occupied.
  rewrite Hcell by lia.
  replace (R - 1 - (R - 1 - i))%nat with i by lia. exact Ho.
Qed.

(** The state a rotation attempt commits at kick offset [k]. *)
Lemma tryKicks_spec (s : Game) (p : Piece) (rotated : Shape) :
  tall (board s) ->
  forall ks : list Z,
  (exists pre k post,
     ks = pre ++ k :: post /\
     (forall k', In k' pre ->
        isValidPosition (board s) rotated (currentX s + k') (currentY s)
          = Ok false) /\
     isValidPosition (board s) rotated (currentX s + k) (currentY s) = Ok true /\
     tryKicks s p rotated ks =
     Ok (set_currentX (currentX s + k)
           (set_currentPiece (Some (mkPiece rotated (color p) (char p))) s)))
  \/
  ((forall k, In k ks ->
      isValidPosition (board s) rotated (currentX s + k) (currentY s)
        = Ok false) /\
   tryKicks s p rotated ks = Ok s).
Proof.
  intros Hb. induction ks as [|k ks IH].
  - right. split; [intros k []|reflexivity].
  - simpl tryKicks.
    destruct (valid_outcome (board s) rotated (currentX s + k) (currentY s) Hb)
      as ([|] & Hok); rewrite Hok; fields.
    + left. exists [], k, ks. split; [reflexivity|].
      split; [intros k' []|]. split; [exact Hok|reflexivity].
    + destruct IH as [(pre & k0 & post & -> & Hpre & Hk0 & Heq)|[Hall Heq]].
      * left. exists (k :: pre), k0, post. split; [reflexivity|].
        split; [|split; assumption].
        intros k' [<-|Hin]; [exact Hok|apply Hpre, Hin].
      * right. split; [|exact Heq].
        intros k' [<-|Hin]; [exact Hok|apply Hall, Hin].
Qed.

Lemma rotatePiece_inv (s : Game) :
  Inv s -> exists s', rotatePiece s = Ok s' /\ Inv s' /\
    lines s' = lines s /\ level s' = level s /\
    gameRunning s' = gameRunning s.
Proof.
  intros HI. pose proof HI as HI'.
  destruct HI as [Hwf Hfull (p & Hp & Hgood & Hvalid) Hy Hn].
  destruct (rotate_good _ Hgood) as (m & Hm & Hgm).
  unfold rotatePiece. rewrite Hp, Hm. fields.
  destruct (tryKicks_spec s p m (proj1 Hwf) kicks)
    as [(pre & k & post & _ & _ & Hk & ->)|[_ ->]].
  - eexists. split; [reflexivity|]. split; [|repeat split].
    constructor; fields; try assumption.
    eexists. split; [reflexivity|]. split; assumption.
  - exists s. split; [reflexivity|]. split; [exact HI'|]. repeat split.
Qed.

(** ** Lock, clear, spawn *)

Lemma lockPiece_spec (s : Game) :
  Inv s ->
  exists b', lockPiece s = Ok (set_board b' s) /\ wellFormed b' /\
    (fullCount b' <= 4)%nat.
Proof.
  intros [Hwf Hfull (p & Hp & Hgood & Hvalid) Hy Hn].
  destruct Hgood as (R & C & HR & HC & Hrect & _).
  destruct (lockRows_ok p (currentX s) (currentY s) Hy (shape p) 0 (board s) Hwf)
    as (b' & Hb' & Hwf' & Hsame).
  { intros i j Ho.
    destruct (valid_cells_in_range _ _ _ _ (proj1 Hwf) Hvalid i j Ho)
      as (Hx & Hh & _).
    split; [exact Hx|exact Hh]. }
  exists b'. unfold lockPiece. rewrite Hp, Hb'. fields.
  split; [reflexivity|]. split; [exact Hwf'|].
  pose proof (fullCount_sameOutside _ _ _ _ Hsame Hfull) as Hle.
  destruct Hrect as [Hlen _]. lia.
Qed.

Lemma clearLoop_mono (fuel : nat) :
  forall (row : Z) (b : Board) (n : nat) (r : Board * nat),
  clearLoop fuel row b n = Ok r ->
  forall fuel', (fuel <= fuel')%nat -> clearLoop fuel' row b n = Ok r.
Proof.
  induction fuel as [|fuel IH]; intros row b n r Hr fuel' Hle; [discriminate|].
  destruct fuel' as [|fuel']; [lia|]. simpl in *.
  destruct (row >=? 0); [|exact Hr].
  destruct (nth_error b (Z.to_nat row)) as [brow|]; [|discriminate].
  destruct (rowFull brow); (apply IH; [exact Hr|lia]).
Qed.

(** Whatever the budget, a call of [clearLines] that returns leaves the
    state [clearLines_eq] describes. *)
Lemma clearLines_result (fuel : nat) (s s' : Game) (v : jsvalue) :
  tall (board s) -> clearLines fuel s = Ok (v, s') ->
  clearLines (Nat.max fuel 41) s = Ok (v, s').
Proof.
  intros Hb Hc. unfold clearLines in *.
  destruct (clearLoop fuel (BOARD_HEIGHT - 1) (board s) 0) as [r| |] eqn:E;
    try discriminate.
  rewrite (clearLoop_mono fuel _ _ _ r E (Nat.max fuel 41)) by lia.
  exact Hc.
Qed.

Lemma keptRows_no_full (b : Board) : fullCount (keptRows b) = 0%nat.
Proof.
  induction b as [|r b IH]; [reflexivity|].
  rewrite keptRows_cons. destruct (rowFull r) eqn:Hr; [exact IH|].
  simpl app. rewrite fullCount_cons, Hr. exact IH.
Qed.

Lemma emptyRows_no_full (k : nat) : fullCount (repeat emptyRow k) = 0%nat.
Proof.
  induction k as [|k IH]; [reflexivity|].
  simpl repeat. rewrite fullCount_cons, emptyRow_not_full. exact IH.
Qed.

Lemma cleared_wellFormed (b : Board) :
  wellFormed b ->
  wellFormed (repeat emptyRow (fullCount b) ++ keptRows b) /\
  fullCount (repeat emptyRow (fullCount b) ++ keptRows b) = 0%nat.
Proof.
  intros [Hb Hrows]. split; [split|].
  - unfold tall in *. rewrite length_app, repeat_length, fullCount_keptRows.
    exact Hb.
  - apply Forall_app. split.
    + apply Forall_forall. intros r Hr. apply repeat_spec in Hr. subst r.
      split; [reflexivity|]. unfold emptyRow. apply Forall_forall.
      intros c Hc. apply repeat_spec in Hc. subst c. discriminate.
    + unfold keptRows. rewrite Forall_forall in *. intros r Hr.
      apply filter_In in Hr. apply Hrows, Hr.
  - rewrite fullCount_app, emptyRows_no_full, keptRows_no_full. reflexivity.
Qed.

Lemma clearLines_post (fuel : nat) (s s' : Game) (v : jsvalue) :
  wellFormed (board s) -> levelOk s -> clearLines fuel s = Ok (v, s') ->
  v = Undefined /\ wellFormed (board s') /\ fullCount (board s') = 0%nat /\
  levelOk s' /\ lines s' = lines s + Z.of_nat (fullCount (board s)) /\
  nextPieceIndex s' = nextPieceIndex s /\ gameRunning s' = gameRunning s.
Proof.
  intros Hwf Hlv Hc. apply (clearLines_result _ _ _ _ (proj1 Hwf)) in Hc.
  rewrite (clearLines_eq _ s (proj1 Hwf)) in Hc by lia. cbv zeta in Hc.
  destruct (cleared_wellFormed _ Hwf) as [Hwf' Hfull'].
  inversion Hc; subst v s'. clear Hc. unfold levelOk in *.
  destruct (0 <? fullCount (board s))%nat eqn:E; fields.
  - repeat split; try assumption; apply Hwf'.
  - apply Nat.ltb_ge in E. replace (fullCount (board s)) with 0%nat by lia.
    rewrite Z.add_0_r. simpl repeat. simpl app.
    replace (fullCount (board s)) with 0%nat in Hwf', Hfull' by lia.
    repeat split; try assumption; apply Hwf'.
Qed.

Lemma lockClearSpawn_inv (fuel : nat) (s s' : Game) (ok : bool) :
  Inv s -> levelOk s -> lockClearSpawn fuel s = Ok (ok, s') ->
  levelOk s' /\ gameRunning s' = (gameRunning s && ok)%bool /\
  (ok = true -> Inv s').
Proof.
  intros HI Hlv Hrun. unfold lockClearSpawn in Hrun.
  destruct (lockPiece_spec s HI) as (b1 & Hlock & Hwf1 & _).
  rewrite Hlock in Hrun. fields in Hrun.
  destruct (clearLines fuel (set_board b1 s)) as [[v s2]| |] eqn:Hclear;
    try discriminate. fields in Hrun.
  destruct (clearLines_post fuel (set_board b1 s) s2 v Hwf1 Hlv Hclear)
    as (_ & Hwf2 & Hfull2 & Hlv2 & _ & Hn2 & Hr2).
  fields in Hn2. fields in Hr2.
  destruct (spawnPiece_spec s2 (proj1 Hwf2))
    as (p & ok' & s3 & Hsp & Hin & Hvalid & Hb3 & Hp3 & Hx3 & Hy3 & Hl3 & Hv3
        & Hn3 & Hr3).
  { right. rewrite Hn2. apply (inv_next s HI). }
  rewrite Hsp in Hrun. inversion Hrun; subst ok' s3. clear Hrun.
  split; [unfold levelOk in *; congruence|].
  split; [congruence|]. intros ->.
  constructor.
  - rewrite Hb3. exact Hwf2.
  - rewrite Hb3. exact Hfull2.
  - exists p. split; [exact Hp3|]. split.
    + pose proof PIECES_good as Hg. rewrite Forall_forall in Hg. apply Hg, Hin.
    + rewrite Hb3. exact Hvalid.
  - lia.
  - exact Hn3.
Qed.

Lemma initBoard_wellFormed :
  wellFormed (repeat emptyRow (Z.to_nat BOARD_HEIGHT)) /\
  fullCount (repeat emptyRow (Z.to_nat BOARD_HEIGHT)) = 0%nat.
Proof.
  split; [split|].
  - reflexivity.
  - apply Forall_forall. intros r Hr. apply repeat_spec in Hr. subst r.
    split; [reflexivity|]. apply Forall_forall. intros c Hc.
    apply repeat_spec in Hc. subst c. discriminate.
  - apply emptyRows_no_full.
Qed.

Lemma initGame_spec (s : Game) :
  exists s', initGame s = Ok s' /\ Inv s' /\ levelOk s' /\
    gameRunning s' = true /\ lines s' = 0.
Proof.
  unfold initGame, initBoard. fields.
  match goal with |- context [spawnPiece ?t] => set (s0 := t) end.
  destruct initBoard_wellFormed as [Hwf Hfull].
  destruct (spawnPiece_spec s0 (proj1 Hwf))
    as (p & ok & s1 & Hsp & Hin & Hvalid & Hb1 & Hp1 & Hx1 & Hy1 & Hl1 & Hv1
        & Hn1 & Hr1).
  { left. reflexivity. }
  assert (Hok : ok = true).
  { pose proof PIECES_fit_empty_board as Hfit. rewrite Forall_forall in Hfit.
    specialize (Hfit p Hin). rewrite Hx1, Hy1 in Hvalid.
    change (board s0) with (repeat emptyRow (Z.to_nat BOARD_HEIGHT)) in Hvalid.
    congruence. }
  subst ok. rewrite Hsp. fields. exists s1. split; [reflexivity|].
  split; [|split; [|split]].
  - constructor.
    + rewrite Hb1. exact Hwf.
    + rewrite Hb1. exact Hfull.
    + exists p. split; [exact Hp1|]. split.
      * pose proof PIECES_good as Hg. rewrite Forall_forall in Hg. apply Hg, Hin.
      * rewrite Hb1. exact Hvalid.
    + lia.
    + exact Hn1.
  - unfold levelOk. rewrite Hl1, Hv1. reflexivity.
  - rewrite Hr1. reflexivity.
  - rewrite Hl1. reflexivity.
Qed.

(** ** The drop loop *)

Lemma dropLoop_inv (fuel : nat) :
  forall s s' : Game,
  Inv s -> dropLoop fuel s = Ok s' ->
  Inv s' /\ lines s' = lines s /\ level s' = level s /\
  gameRunning s' = gameRunning s.
Proof.
  induction fuel as [|fuel IH]; intros s s' HI Hd; [discriminate|].
  simpl in Hd. pose proof HI as HI'.
  destruct HI as [Hwf _ (p & Hp & _ & _) _ _].
  destruct (movePiece_spec 0 1 s p (proj1 Hwf) Hp) as (ok & Hok & Heq).
  pose proof (movePiece_inv 0 1 s _ ok HI' ltac:(lia) Heq) as HI1.
  rewrite Heq in Hd. fields in Hd. destruct ok.
  - destruct (IH _ _ HI1 Hd) as (H1 & H2 & H3 & H4). fields in H2.
    fields in H3. fields in H4. auto.
  - inversion Hd; subst s'. auto.
Qed.

(** ** Reachable states *)

Lemma handleInput_inv (fuel : nat) (k : string) (s s' : Game) :
  levelOk s -> (gameRunning s = true -> Inv s) ->
  handleInput fuel k s = Ok s' ->
  levelOk s' /\ (gameRunning s' = true -> Inv s').
Proof.
  intros Hlv HI Hh. unfold handleInput in Hh.
  destruct (gameRunning s) eqn:Hrun; simpl negb in Hh; cbv iota in Hh.
  2:{ destruct (keyIs "r" k || keyIs "R" k).
      - destruct (initGame_spec s) as (s1 & E & HI1 & Hlv1 & _).
        rewrite E in Hh. inversion Hh; subst s'. auto.
      - inversion Hh; subst s'. split; [exact Hlv|]. congruence. }
  specialize (HI eq_refl). pose proof HI as HI'.
  destruct HI as [Hwf _ (p & Hp & _ & _) _ _].
  assert (Hmove : forall dx dy ok s1, 0 <= dy ->
    movePiece dx dy s = Ok (ok, s1) ->
    Inv s1 /\ levelOk s1 /\ gameRunning s1 = true).
  { intros dx dy ok s1 Hdy Hm. split; [eapply movePiece_inv; eauto|].
    destruct (movePiece_spec dx dy s p (proj1 Hwf) Hp) as (ok' & _ & Heq).
    rewrite Heq in Hm. inversion Hm; subst ok' s1.
    destruct ok; fields; auto. }
  assert (Hlcs : forall ok s1, Inv s -> levelOk s -> gameRunning s = true ->
    lockClearSpawn fuel s = Ok (ok, s1) ->
    levelOk s1 /\ (gameRunning s1 = true -> Inv s1)).
  { intros ok s1 HIs Hlvs Hrs Hl.
    destruct (lockClearSpawn_inv fuel s s1 ok HIs Hlvs Hl) as (H1 & H2 & H3).
    split; [exact H1|]. intros Hr1. apply H3. rewrite Hr1, Hrs in H2.
    destruct ok; [reflexivity|discriminate]. }
  destruct (keyIs "p" k || keyIs "P" k).
  { inversion Hh; subst s'. split; [exact Hlv|]. intros _.
    destruct HI'. constructor; assumption. }
  destruct (gamePaused s).
  { inversion Hh; subst s'. auto. }
  destruct (keyIs "left" k || keyIs "a" k).
  { destruct (movePiece (-1) 0 s) as [[ok s1]| |] eqn:E; try discriminate.
    fields in Hh. inversion Hh; subst s'.
    destruct (Hmove (-1) 0 _ _ ltac:(lia) E) as (H1 & H2 & H3). auto. }
  destruct (keyIs "right" k || keyIs "d" k).
  { destruct (movePiece 1 0 s) as [[ok s1]| |] eqn:E; try discriminate.
    fields in Hh. inversion Hh; subst s'.
    destruct (Hmove 1 0 _ _ ltac:(lia) E) as (H1 & H2 & H3). auto. }
  destruct (keyIs "up" k || keyIs "w" k).
  { destruct (rotatePiece_inv s HI') as (s1 & E & HI1 & Hl1 & Hv1 & _).
    rewrite E in Hh. inversion Hh; subst s'.
    split; [unfold levelOk in *; congruence|auto]. }
  destruct (keyIs "down" k || keyIs "s" k).
  { destruct (movePiece 0 1 s) as [[ok s1]| |] eqn:E; try discriminate.
    fields in Hh.
    destruct (Hmove 0 1 _ _ ltac:(lia) E) as (H1 & H2 & H3).
    destruct ok.
    - inversion Hh; subst s'. auto.
    - destruct (movePiece_spec 0 1 s p (proj1 Hwf) Hp) as (ok' & _ & Heq).
      rewrite Heq in E. inversion E; subst ok' s1.
      destruct (lockClearSpawn fuel s) as [[ok2 s2]| |] eqn:E2; try discriminate.
      fields in Hh. inversion Hh; subst s'. eapply Hlcs; eauto. }
  destruct (keyIs "space" k).
  { unfold hardDrop in Hh.
    destruct (dropLoop fuel s) as [s1| |] eqn:E1; try discriminate.
    fields in Hh.
    destruct (dropLoop_inv fuel s s1 HI' E1) as (HI1 & Hl1 & Hv1 & Hr1).
    destruct (lockClearSpawn fuel s1) as [[ok2 s2]| |] eqn:E2; try discriminate.
    fields in Hh. inversion Hh; subst s'.
    destruct (lockClearSpawn_inv fuel s1 s2 ok2 HI1) as (H1 & H2 & H3);
      [unfold levelOk in *; congruence|exact E2|].
    split; [exact H1|]. intros Hr2. apply H3. rewrite Hr2, Hr1, Hrun in H2.
    destruct ok2; [reflexivity|discriminate]. }
  destruct (keyIs "q" k || keyIs "Q" k || keyIs "escape" k).
  { inversion Hh; subst s'. unfold quitGame, saveHighScore. fields.
    destruct (num_gt _ _); fields; (split; [exact Hlv|discriminate]). }
  inversion Hh; subst s'. auto.
Qed.

Lemma gameTick_inv (fuel : nat) (s s' : Game) :
  levelOk s -> (gameRunning s = true -> Inv s) ->
  gameTick fuel s = Ok s' ->
  levelOk s' /\ (gameRunning s' = true -> Inv s').
Proof.
  intros Hlv HI Ht. unfold gameTick in Ht.
  destruct (gameRunning s) eqn:Hrun; simpl negb in Ht; simpl orb in Ht.
  2:{ inversion Ht; subst s'. split; [exact Hlv|]. congruence. }
  destruct (gamePaused s).
  { inversion Ht; subst s'. auto. }
  specialize (HI eq_refl). pose proof HI as HI'.
  destruct HI as [Hwf _ (p & Hp & _ & _) _ _].
  destruct (movePiece_spec 0 1 s p (proj1 Hwf) Hp) as (ok & _ & Heq).
  pose proof (movePiece_inv 0 1 s _ ok HI' ltac:(lia) Heq) as HI1.
  rewrite Heq in Ht. fields in Ht. destruct ok.
  - inversion Ht; subst s'. fields. auto.
  - destruct (lockClearSpawn fuel s) as [[ok2 s2]| |] eqn:E2; try discriminate.
    fields in Ht. inversion Ht; subst s'.
    destruct (lockClearSpawn_inv fuel s s2 ok2 HI' Hlv E2) as (H1 & H2 & H3).
    split; [exact H1|]. intros Hr2. apply H3. rewrite Hr2, Hrun in H2.
    destruct ok2; [reflexivity|discriminate].
Qed.

Lemma reachable_inv (s : Game) :
  reachable s -> levelOk s /\ (gameRunning s = true -> Inv s).
Proof.
  induction 1 as [file rnd|fuel ev s s' Hreach [Hlv HI] Hd].
  - unfold main, loadHighScore. fields.
    destruct file; fields; (split; [reflexivity|discriminate]).
  - unfold dispatch in Hd. destruct (exited s).
    { inversion Hd; subst s'. auto. }
    destruct ev as [key|]; [|eapply gameTick_inv; eauto].
    assert (Hkey : forall s1,
      match key with Some k => handleInput fuel k s | None => Ok s end = Ok s1 ->
      levelOk s1 /\ (gameRunning s1 = true -> Inv s1)).
    { intros s1 E. destruct key as [k|].
      - eapply handleInput_inv; eauto.
      - inversion E; subst s1. auto. }
    destruct (match key with Some k => handleInput fuel k s | None => Ok s end)
      as [s1| |]; try discriminate.
    destruct (Hkey s1 eq_refl) as [Hlv1 HI1]. fields in Hd.
    destruct (exited s1); [inversion Hd; subst s'; auto|].
    destruct (startPending s1); [|inversion Hd; subst s'; auto].
    destruct (initGame_spec (set_startPending false s1)) as (s2 & E & H1 & H2 & _).
    rewrite E in Hd. inversion Hd; subst s'. auto.
Qed.

Lemma run_reachable (fuel : nat) (evs : list event) :
  forall s s', reachable s -> run fuel evs s = Ok s' -> reachable s'.
Proof.
  induction evs as [|ev evs IH]; intros s s' Hs Hrun; simpl in Hrun.
  - inversion Hrun; subst s'. exact Hs.
  - destruct (dispatch fuel ev s) as [s1| |] eqn:E; try discriminate.
    apply (IH s1 s'); [|exact Hrun].
    exact (reach_event fuel ev s s1 Hs E).
Qed.

Lemma started_reachable (i : nat) : (i < 7)%nat -> reachable (started i).
Proof.
  intros Hi. apply (run_reachable 41 [Keypress None] (main None (fun _ => i)));
    [apply reach_main|].
  do 7 (destruct i as [|i]; [vm_compute; reflexivity|]). lia.
Qed.

(** * Main results *)

Lemma isValidPosition_spec_witness :
  tall (board (started 0)) /\
  exists v, isValidPosition (board (started 0)) [[1; 1; 1; 1]] 3 0 = Ok v.
Proof.
  assert (Hb : tall (board (started 0))) by (vm_compute; reflexivity).
  split; [exact Hb|].
  destruct (isValidPosition_spec (board (started 0)) [[1; 1; 1; 1]] 3 0 Hb)
    as (v & Hv & _).
  exists v. exact Hv.
Defined.

Lemma clearLines_spec_witness :
  wellFormed (board (started 0)) /\ (41 <= 41)%nat /\
  exists s', clearLines 41 (started 0) = Ok (Undefined, s').
Proof.
  assert (Hwf : wellFormed (board (started 0))).
  { apply initBoard_wellFormed. }
  split; [exact Hwf|]. split; [lia|].
  destruct (clearLines_spec 41 (started 0) Hwf) as (s' & Hs & _); [lia|].
  exists s'. exact Hs.
Defined.

(** C3.  In every state the process reaches with the game running, the
    occupied cells of the active piece have their columns in
    [[0, BOARD_WIDTH)] and their rows below [BOARD_HEIGHT], and none of
    them with a row that is not negative lies on an occupied cell of the
    board. *)
Theorem active_piece_in_bounds (s : Game) :
  reachable s -> gameRunning s = true -> pieceInBounds s.
Proof.
  intros Hreach Hrun. destruct (reachable_inv s Hreach) as [_ HI].
  destruct (HI Hrun) as [Hwf _ (p & Hp & _ & Hvalid) _ _].
  exists p. split; [exact Hp|].
  apply (valid_cells_in_range _ _ _ _ (proj1 Hwf) Hvalid).
Qed.

Lemma active_piece_in_bounds_witness :
  reachable (started 2) /\ gameRunning (started 2) = true /\
  pieceInBounds (started 2).
Proof.
  assert (Hr : reachable (started 2)) by (apply started_reachable; lia).
  assert (Hg : gameRunning (started 2) = true) by (vm_compute; reflexivity).
  split; [exact Hr|]. split; [exact Hg|].
  apply active_piece_in_bounds; [exact Hr|exact Hg].
Defined.

(** ** Rotation and move attempts *)

Lemma attempts_spec (s : Game) (p : Piece) :
  tall (board s) -> currentPiece s = Some p -> shape p <> [] ->
  (exists rotated s',
     rotate (shape p) = Ok rotated /\ rotatePiece s = Ok s' /\
     ((exists pre k post,
         kicks = pre ++ k :: post /\
         (forall k', In k' pre ->
            isValidPosition (board s) rotated (currentX s + k') (currentY s)
              = Ok false) /\
         isValidPosition (board s) rotated (currentX s + k) (currentY s)
           = Ok true /\
         s' = set_currentX (currentX s + k)
                (set_currentPiece (Some (mkPiece rotated (color p) (char p))) s))
      \/
      ((forall k, In k kicks ->
          isValidPosition (board s) rotated (currentX s + k) (currentY s)
            = Ok false) /\
       s' = s))) /\
  (forall dx dy, exists ok,
     isValidPosition (board s) (shape p) (currentX s + dx) (currentY s + dy)
       = Ok ok /\
     movePiece dx dy s =
     Ok (ok, if ok
             then set_currentY (currentY s + dy)
                    (set_currentX (currentX s + dx) s)
             else s)).
Proof.
  intros Hb Hp Hsh. split.
  - destruct (shape p) as [|r0 rest] eqn:Esh; [congruence|].
    unfold rotatePiece. rewrite Hp, Esh.
    set (rotated := rotateFill (r0 :: rest) (List.length (r0 :: rest))
                      (List.length r0)
                      (repeat (repeat 0 (List.length (r0 :: rest)))
                         (List.length r0))).
    change (rotate (r0 :: rest)) with (Ok rotated). fields.
    exists rotated.
    destruct (tryKicks_spec s p rotated Hb kicks)
      as [(pre & k & post & Hk & Hpre & Hv & ->)|[Hall ->]].
    + eexists. split; [reflexivity|]. split; [reflexivity|].
      left. exists pre, k, post. auto.
    + exists s. split; [reflexivity|]. split; [reflexivity|]. right. auto.
  - intros dx dy. apply movePiece_spec; assumption.
Qed.

(** C4.  In a reachable running state a rotation attempt returns without
    throwing.  It tries the rotated matrix at the offsets 0, -1, +1, -2, +2
    in that order and commits the first one at which [isValidPosition]
    succeeds, replacing the matrix and shifting the origin column by it;
    when none succeeds the state is unchanged.  A move attempt returns
    without throwing as well: it commits when the target position is valid
    and leaves the state unchanged otherwise. *)
Theorem rotate_and_move_attempts (s : Game) :
  reachable s -> gameRunning s = true ->
  kicks = [0; -1; 1; -2; 2] /\
  exists p, currentPiece s = Some p /\
  (exists rotated s',
     rotate (shape p) = Ok rotated /\ rotatePiece s = Ok s' /\
     ((exists pre k post,
         kicks = pre ++ k :: post /\
         (forall k', In k' pre ->
            isValidPosition (board s) rotated (currentX s + k') (currentY s)
              = Ok false) /\
         isValidPosition (board s) rotated (currentX s + k) (currentY s)
           = Ok true /\
         s' = set_currentX (currentX s + k)
                (set_currentPiece (Some (mkPiece rotated (color p) (char p))) s))
      \/
      ((forall k, In k kicks ->
          isValidPosition (board s) rotated (currentX s + k) (currentY s)
            = Ok false) /\
       s' = s))) /\
  (forall dx dy, exists ok,
     isValidPosition (board s) (shape p) (currentX s + dx) (currentY s + dy)
       = Ok ok /\
     movePiece dx dy s =
     Ok (ok, if ok
             then set_currentY (currentY s + dy)
                    (set_currentX (currentX s + dx) s)
             else s)).
Proof.
  intros Hreach Hrun. split; [reflexivity|].
  destruct (reachable_inv s Hreach) as [_ HI].
  destruct (HI Hrun) as [Hwf _ (p & Hp & Hgood & _) _ _].
  exists p. split; [exact Hp|].
  apply attempts_spec; [exact (proj1 Hwf)|exact Hp|].
  destruct (goodShape_cons _ Hgood) as (r0 & rest & ->). discriminate.
Qed.

Lemma rotate_and_move_attempts_witness :
  reachable (started 2) /\ gameRunning (started 2) = true /\
  exists s', rotatePiece (started 2) = Ok s'.
Proof.
  assert (Hr : reachable (started 2)) by (apply started_reachable; lia).
  assert (Hg : gameRunning (started 2) = true) by (vm_compute; reflexivity).
  split; [exact Hr|]. split; [exact Hg|].
  destruct (rotate_and_move_attempts (started 2) Hr Hg)
    as (_ & p & _ & (rotated & s' & _ & Hs' & _) & _).
  exists s'. exact Hs'.
Defined.

(** Near the right wall the upright I piece is kicked when it is rotated
    back: in column 7 offset 0 does not fit and offset -1 does; in column 9
    no offset fits and the attempt changes nothing. *)
Example kicked_off_the_wall :
  exists s1 s2,
    run 41 [key "w"; key "d"; key "d"; key "d"; key "d"] (started 0) = Ok s1 /\
    currentX s1 = 7 /\
    isValidPosition (board s1) [[1; 1; 1; 1]] (currentX s1 + 0) (currentY s1)
      = Ok false /\
    isValidPosition (board s1) [[1; 1; 1; 1]] (currentX s1 + -1) (currentY s1)
      = Ok true /\
    rotatePiece s1 = Ok s2 /\
    currentX s2 = 6 /\
    option_map shape (currentPiece s2) = Some [[1; 1; 1; 1]].
Proof.
  do 2 eexists. vm_compute. repeat split.
Qed.

Example stuck_at_the_wall :
  exists s1,
    run 41 [key "w"; key "d"; key "d"; key "d"; key "d"; key "d"; key "d"]
      (started 0) = Ok s1 /\
    currentX s1 = 9 /\
    option_map shape (currentPiece s1) = Some [[1]; [1]; [1]; [1]] /\
    rotatePiece s1 = Ok s1.
Proof.
  eexists. vm_compute. repeat split.
Qed.

(** C5.  [spawnPiece] puts the new piece at column
    [floor((BOARD_WIDTH - matrixWidth) / 2)] and row 0 and returns whether
    that position is valid.  When it is not, the game is over
    ([gameRunning] is false) and the board is the one [spawnPiece] was
    called with, as it is in every case. *)
Theorem spawn_failure_leaves_board (s : Game) :
  tall (board s) -> nextPieceIndex s = -1 \/ 0 <= nextPieceIndex s < 7 ->
  exists p ok s',
    spawnPiece s = Ok (ok, s') /\ In p PIECES /\
    currentPiece s' = Some p /\
    currentX s' = (BOARD_WIDTH - Z.of_nat (List.length (hd [] (shape p)))) / 2 /\
    currentY s' = 0 /\
    isValidPosition (board s) (shape p) (currentX s') (currentY s') = Ok ok /\
    board s' = board s /\
    (ok = false -> gameRunning s' = false).
Proof.
  intros Hb Hn.
  destruct (spawnPiece_spec s Hb Hn)
    as (p & ok & s' & Hsp & Hin & Hvalid & Hb' & Hp' & Hx' & Hy' & _ & _ & _
        & Hr').
  exists p, ok, s'. repeat split; try assumption.
  intros ->. rewrite Hr'. apply andb_false_r.
Qed.

Lemma spawn_failure_leaves_board_witness :
  tall (board jammed) /\ 0 <= nextPieceIndex jammed < 7 /\
  exists s', spawnPiece jammed = Ok (false, s') /\ board s' = board jammed /\
    gameRunning s' = false.
Proof.
  assert (Hb : tall (board jammed)) by (vm_compute; reflexivity).
  assert (Hn : 0 <= nextPieceIndex jammed < 7).
  { replace (nextPieceIndex jammed) with 0 by (vm_compute; reflexivity). lia. }
  split; [exact Hb|]. split; [exact Hn|].
  destruct (spawn_failure_leaves_board jammed Hb (or_intror Hn))
    as (p & ok & s' & Hsp & _ & _ & _ & _ & _ & Hb' & Hover).
  assert (Hok : ok = false).
  { assert (E : exists t, spawnPiece jammed = Ok (false, t))
      by (eexists; vm_compute; reflexivity).
    destruct E as (t & Ht). rewrite Ht in Hsp. inversion Hsp. reflexivity. }
  subst ok. exists s'. split; [exact Hsp|]. split; [exact Hb'|].
  apply Hover. reflexivity.
Defined.

(** ** Four rotations *)

Lemma tryKicks_commits (s s' : Game) (p : Piece) (rotated : Shape) :
  forall ks : list Z,
  tryKicks s p rotated ks = Ok s' ->
  (exists k, In k ks /\
     isValidPosition (board s) rotated (currentX s + k) (currentY s) = Ok true) ->
  currentPiece s' = Some (mkPiece rotated (color p) (char p)).
Proof.
  induction ks as [|k ks IH]; intros Ht (k0 & Hin & Hv); [destruct Hin|].
  simpl in Ht.
  destruct (isValidPosition (board s) rotated (currentX s + k) (currentY s))
    as [[|]| |] eqn:E; try discriminate; fields in Ht.
  - inversion Ht; subst s'. reflexivity.
  - apply IH; [exact Ht|]. destruct Hin as [<-|Hin]; [congruence|].
    exists k0. auto.
Qed.

Lemma rotatePiece_commits (s s' : Game) (p : Piece) (m : Shape) :
  currentPiece s = Some p -> rotate (shape p) = Ok m ->
  kickFound s -> rotatePiece s = Ok s' ->
  currentPiece s' = Some (mkPiece m (color p) (char p)).
Proof.
  intros Hp Hm (p' & m' & k & Hp' & Hm' & Hin & Hv) Hrot.
  rewrite Hp in Hp'. inversion Hp'; subst p'.
  rewrite Hm in Hm'. inversion Hm'; subst m'.
  unfold rotatePiece in Hrot. rewrite Hp, Hm in Hrot. fields in Hrot.
  apply (tryKicks_commits s s' p m kicks Hrot). exists k. auto.
Qed.

(** C6.  Applied four times in a row to a rectangular matrix, the
    rotation gives the matrix back: same dimensions, same cells.  Hence
    four rotations of the active piece, each of which finds a kick offset
    that fits, leave it with the matrix it started from (its origin may
    have been shifted by the kicks). *)
Theorem four_rotations_restore (R C : nat) (sh : Shape) :
  (0 < R)%nat -> (0 < C)%nat -> rect R C sh ->
  (exists m1 m2 m3,
     rotate sh = Ok m1 /\ rotate m1 = Ok m2 /\ rotate m2 = Ok m3 /\
     rotate m3 = Ok sh) /\
  (forall (s s1 s2 s3 s4 : Game) (p : Piece),
     currentPiece s = Some p -> shape p = sh ->
     kickFound s -> rotatePiece s = Ok s1 ->
     kickFound s1 -> rotatePiece s1 = Ok s2 ->
     kickFound s2 -> rotatePiece s2 = Ok s3 ->
     kickFound s3 -> rotatePiece s3 = Ok s4 ->
     currentPiece s4 = Some p).
Proof.
  intros HR HC Hsh.
  destruct (rotate_four R C sh HR HC Hsh) as (m1 & m2 & m3 & E1 & E2 & E3 & E4).
  split; [exists m1, m2, m3; auto|].
  intros s s1 s2 s3 s4 p Hp Hshape K0 R0 K1 R1 K2 R2 K3 R3.
  rewrite <- Hshape in E1.
  pose proof (rotatePiece_commits s s1 p m1 Hp E1 K0 R0) as P1.
  pose proof (rotatePiece_commits s1 s2 _ m2 P1 E2 K1 R1) as P2.
  pose proof (rotatePiece_commits s2 s3 _ m3 P2 E3 K2 R2) as P3.
  pose proof (rotatePiece_commits s3 s4 _ sh P3 E4 K3 R3) as P4.
  rewrite P4. simpl. rewrite <- Hshape. destruct p; reflexivity.
Qed.

Lemma four_rotations_restore_witness :
  (0 < 2)%nat /\ (0 < 3)%nat /\ rect 2 3 [[0; 1; 0]; [1; 1; 1]] /\
  exists m1 m2 m3,
    rotate [[0; 1; 0]; [1; 1; 1]] = Ok m1 /\ rotate m1 = Ok m2 /\
    rotate m2 = Ok m3 /\ rotate m3 = Ok [[0; 1; 0]; [1; 1; 1]].
Proof.
  assert (Hrect : rect 2 3 [[0; 1; 0]; [1; 1; 1]]).
  { split; [reflexivity|]. repeat apply Forall_cons; try apply Forall_nil;
      reflexivity. }
  split; [lia|]. split; [lia|]. split; [exact Hrect|].
  exact (proj1 (four_rotations_restore 2 3 _ ltac:(lia) ltac:(lia) Hrect)).
Defined.

(** Every shape of the catalog comes back after four rotations. *)
Example catalog_four_rotations :
  Forall (fun p => exists m1 m2 m3,
            rotate (shape p) = Ok m1 /\ rotate m1 = Ok m2 /\
            rotate m2 = Ok m3 /\ rotate m3 = Ok (shape p)) PIECES.
Proof.
  pose proof PIECES_good as Hgood. rewrite Forall_forall in *.
  intros p Hp. destruct (Hgood p Hp) as (R & C & HR & HC & Hrect & _).
  apply (rotate_four R C); [lia|lia|exact Hrect].
Qed.

(** On a fresh board the T piece goes through four committed rotations. *)
Example four_rotations_of_T :
  exists s1 s2 s3 s4,
    rotatePiece (started 2) = Ok s1 /\ rotatePiece s1 = Ok s2 /\
    rotatePiece s2 = Ok s3 /\ rotatePiece s3 = Ok s4 /\
    option_map shape (currentPiece s1) = Some [[1; 0]; [1; 1]; [1; 0]] /\
    option_map shape (currentPiece s2) = Some [[1; 1; 1]; [0; 1; 0]] /\
    option_map shape (currentPiece s3) = Some [[0; 1]; [1; 1]; [0; 1]] /\
    currentPiece s4 = currentPiece (started 2).
Proof.
  do 4 eexists. vm_compute. repeat split.
Qed.

(** C7.  In every reachable state [level = floor(lines / 10) + 1].  The
    tally of any sequence of clears, however grouped, applied to a fresh
    game ([lines = 0], [level = 1]) leaves [lines] at their total and
    [level] at [floor(total / 10) + 1]. *)
Theorem level_follows_lines :
  (forall s, reachable s -> level s = lines s / 10 + 1) /\
  (forall (ks : list nat) (s : Game),
     lines s = 0 -> level s = 1 ->
     lines (fold_left (fun s k => tally k s) ks s) = Z.of_nat (list_sum ks) /\
     level (fold_left (fun s k => tally k s) ks s)
       = Z.of_nat (list_sum ks) / 10 + 1).
Proof.
  split.
  - intros s Hs. apply (reachable_inv s Hs).
  - intros ks s Hl Hv.
    assert (Hgen : forall (ks : list nat) (s : Game) (n : nat),
      lines s = Z.of_nat n -> level s = Z.of_nat n / 10 + 1 ->
      lines (fold_left (fun s k => tally k s) ks s) = Z.of_nat (n + list_sum ks) /\
      level (fold_left (fun s k => tally k s) ks s)
        = Z.of_nat (n + list_sum ks) / 10 + 1).
    { clear. induction ks as [|k ks IH]; intros s n Hl Hv.
      - simpl. rewrite Nat.add_0_r. auto.
      - simpl fold_left. simpl list_sum.
        replace (n + (k + list_sum ks))%nat with ((n + k) + list_sum ks)%nat
          by lia.
        apply IH; unfold tally; destruct (Nat.ltb_spec 0 k); fields;
          rewrite ?Hl, ?Hv; try rewrite <- Nat2Z.inj_add; try reflexivity;
          replace (n + k)%nat with n by lia; reflexivity. }
    apply (Hgen ks s 0%nat); [exact Hl|rewrite Hv; reflexivity].
Qed.

Lemma level_follows_lines_witness :
  reachable (started 0) /\
  level (started 0) = lines (started 0) / 10 + 1.
Proof.
  assert (Hr : reachable (started 0)) by (apply started_reachable; lia).
  split; [exact Hr|]. exact (proj1 level_follows_lines (started 0) Hr).
Defined.

(** The tally does not depend on the grouping: four clears of one row and
    one clear of four rows reach the same level and different scores. *)
Example four_singles_or_one_tetris :
  let s := started 0 in
  level (fold_left (fun s k => tally k s) [1; 1; 1; 1]%nat s) = 1 /\
  level (tally 4 s) = 1 /\
  score (fold_left (fun s k => tally k s) [1; 1; 1; 1]%nat s) = Int 400 /\
  score (tally 4 s) = Int 1000.
Proof. vm_compute. repeat split. Qed.

(** C8, at the input where it fails.  No high-score file exists when the
    process starts.  The first game ends with 200 points, which are
    written to the file.  [highScore] still holds the value read at
    start-up, so the second game, which ends with 100 points, overwrites
    the file: the persisted value goes down from 200 to 100. *)
Theorem high_score_overwritten_by_lower :
  exists s1 s2,
    run 41 firstGame (main None twoGamesDraws) = Ok s1 /\
    gameRunning s1 = false /\ score s1 = Int 200 /\
    hsFile s1 = Some (Int 200) /\ highScore s1 = 0 /\
    run 41 secondGame s1 = Ok s2 /\
    gameRunning s2 = false /\ score s2 = Int 100 /\
    hsFile s2 = Some (Int 100) /\
    reachable s2.
Proof.
  destruct (run 41 firstGame (main None twoGamesDraws)) as [s1| |] eqn:E1.
  2,3: vm_compute in E1; discriminate E1.
  destruct (run 41 secondGame s1) as [s2| |] eqn:E2.
  2,3: revert E2; vm_compute in E1; inversion E1; subst s1; clear E1;
       intros E2; vm_compute in E2; discriminate E2.
  exists s1, s2.
  assert (Hr : reachable s2).
  { apply (run_reachable 41 secondGame s1 s2); [|exact E2].
    apply (run_reachable 41 firstGame (main None twoGamesDraws) s1);
      [apply reach_main|exact E1]. }
  split; [reflexivity|].
  revert E2 Hr. vm_compute in E1. inversion E1; subst s1; clear E1.
  intros E2 Hr. vm_compute in E2. inversion E2; subst s2; clear E2.
  repeat split. exact Hr.
Qed.

(** C9, as stated, fails: [clearLines] has no return value.  Here the
    third piece of [fillRow] is locked by hand; the call of [clearLines]
    that follows removes one row and returns [undefined], not 1. *)
Lemma clearLines_returns_undefined :
  exists s0 s1 s2,
    run 41 ([Keypress None] ++ fillRowBut) (main None twoGamesDraws) = Ok s0 /\
    (t <- dropLoop 20 s0 ;; lockPiece t) = Ok s1 /\
    clearLines 41 s1 = Ok (Undefined, s2) /\
    lines s2 = lines s1 + 1 /\
    ~ (exists n s', clearLines 41 s1 = Ok (Number n, s')).
Proof.
  destruct (run 41 ([Keypress None] ++ fillRowBut) (main None twoGamesDraws))
    as [s0| |] eqn:E0.
  2,3: vm_compute in E0; discriminate E0.
  exists s0. vm_compute in E0. inversion E0; subst s0; clear E0.
  do 2 eexists. split; [reflexivity|].
  split; [vm_compute; reflexivity|].
  split; [vm_compute; reflexivity|].
  split; [vm_compute; reflexivity|].
  intros (n & s' & H). vm_compute in H. discriminate H.
Qed.

(** C9, amended.  After the lock of the active piece in a reachable
    running state, the loop of [clearLines] finishes having removed at
    most four rows; [clearLines] returns [undefined] and has added that
    number to [lines]. *)
Theorem cleared_rows_at_most_four (s : Game) (fuel : nat) :
  reachable s -> gameRunning s = true -> (41 <= fuel)%nat ->
  exists s1 b k s2,
    lockPiece s = Ok s1 /\
    clearLoop fuel (BOARD_HEIGHT - 1) (board s1) 0 = Ok (b, k) /\
    (0 <= k <= 4)%nat /\
    clearLines fuel s1 = Ok (Undefined, s2) /\
    board s2 = b /\ lines s2 = lines s1 + Z.of_nat k.
Proof.
  intros Hreach Hrun Hfuel. destruct (reachable_inv s Hreach) as [Hlv HI].
  specialize (HI Hrun).
  destruct (lockPiece_spec s HI) as (b1 & Hlock & Hwf1 & Hle).
  exists (set_board b1 s). fields.
  exists (repeat emptyRow (fullCount b1) ++ keptRows b1), (fullCount b1).
  pose proof (clearLoop_board fuel b1 (proj1 Hwf1) Hfuel) as Hloop.
  unfold clearLines. fields. rewrite Hloop. fields.
  eexists. split; [exact Hlock|]. split; [reflexivity|]. split; [lia|].
  split; [reflexivity|]. unfold tally.
  destruct (Nat.ltb_spec 0 (fullCount b1)); fields.
  - split; reflexivity.
  - split; [reflexivity|]. lia.
Qed.

Lemma cleared_rows_at_most_four_witness :
  reachable (started 0) /\ gameRunning (started 0) = true /\ (41 <= 41)%nat /\
  exists s1 s2, lockPiece (started 0) = Ok s1 /\
    clearLines 41 s1 = Ok (Undefined, s2).
Proof.
  assert (Hr : reachable (started 0)) by (apply started_reachable; lia).
  assert (Hg : gameRunning (started 0) = true) by (vm_compute; reflexivity).
  split; [exact Hr|]. split; [exact Hg|]. split; [lia|].
  destruct (cleared_rows_at_most_four (started 0) 41 Hr Hg)
    as (s1 & b & k & s2 & H1 & _ & _ & H2 & _); [lia|].
  exists s1, s2. split; assumption.
Defined.

(** ** Termination of the drop loop *)

Lemma inv_above_floor (s : Game) : Inv s -> currentY s < BOARD_HEIGHT.
Proof.
  intros [Hwf _ (p & Hp & Hgood & Hvalid) _ _].
  destruct Hgood as (R & C & _ & _ & _ & i & j & Ho).
  destruct (valid_cells_in_range _ _ _ _ (proj1 Hwf) Hvalid i j Ho)
    as (_ & Hh & _). lia.
Qed.

Lemma movePiece_down (s s1 : Game) :
  movePiece 0 1 s = Ok (true, s1) -> currentY s1 = currentY s + 1.
Proof.
  unfold movePiece. destruct (currentPiece s) as [p|]; [|discriminate].
  destruct (isValidPosition _ _ _ _) as [[|]| |]; fields; try discriminate.
  intros H. inversion H. reflexivity.
Qed.

Lemma dropLoop_terminates (n : nat) :
  forall s : Game,
  Inv s -> BOARD_HEIGHT - currentY s <= Z.of_nat n ->
  exists s', dropLoop n s = Ok s' /\ Inv s' /\
    movePiece 0 1 s' = Ok (false, s').
Proof.
  induction n as [|n IH]; intros s HI Hn.
  - pose proof (inv_above_floor s HI). lia.
  - pose proof HI as HI'. destruct HI as [Hwf _ (p & Hp & _ & _) _ _].
    destruct (movePiece_spec 0 1 s p (proj1 Hwf) Hp) as (ok & _ & Heq).
    pose proof (movePiece_inv 0 1 s _ ok HI' ltac:(lia) Heq) as HI1.
    simpl dropLoop. rewrite Heq. fields. destruct ok.
    + apply IH; [exact HI1|]. fields. lia.
    + exists s. auto.
Qed.

Lemma lockClearSpawn_returns (fuel : nat) (s : Game) :
  Inv s -> levelOk s -> (41 <= fuel)%nat ->
  exists ok s', lockClearSpawn fuel s = Ok (ok, s').
Proof.
  intros HI Hlv Hfuel. unfold lockClearSpawn.
  destruct (lockPiece_spec s HI) as (b1 & Hlock & Hwf1 & _).
  rewrite Hlock. fields.
  pose proof (clearLines_eq fuel (set_board b1 s) (proj1 Hwf1) Hfuel) as Hc.
  cbv zeta in Hc.
  match type of Hc with _ = Ok (_, ?t) => set (s2 := t) in Hc end.
  destruct (clearLines_post fuel (set_board b1 s) s2 Undefined Hwf1 Hlv Hc)
    as (_ & Hwf2 & _ & _ & _ & Hn2 & _).
  rewrite Hc. fields.
  destruct (spawnPiece_spec s2 (proj1 Hwf2)) as (p & ok & s3 & Hsp & _).
  { right. rewrite Hn2. fields. apply (inv_next s HI). }
  exists ok, s3. exact Hsp.
Qed.

(** C10.  A successful [movePiece(0, 1)] raises the origin row by one, and
    a valid position has its origin row below [BOARD_HEIGHT].  So from a
    reachable running state the loop of [hardDrop] makes at most
    [BOARD_HEIGHT] calls of [movePiece]: it ends in a state where the move
    down fails, and [lockPiece] then returns, as does [hardDrop] as a
    whole. *)
Theorem hardDrop_terminates (s : Game) :
  reachable s -> gameRunning s = true ->
  (forall t t1, movePiece 0 1 t = Ok (true, t1) -> currentY t1 = currentY t + 1) /\
  0 <= currentY s < BOARD_HEIGHT /\
  (exists s',
     dropLoop (Z.to_nat BOARD_HEIGHT) s = Ok s' /\
     movePiece 0 1 s' = Ok (false, s') /\
     0 <= currentY s' < BOARD_HEIGHT /\
     exists s'', lockPiece s' = Ok s'') /\
  (forall fuel, (41 <= fuel)%nat -> exists s3, hardDrop fuel s = Ok s3).
Proof.
  intros Hreach Hrun. destruct (reachable_inv s Hreach) as [Hlv HI].
  specialize (HI Hrun). split; [exact movePiece_down|].
  pose proof (inv_above_floor s HI) as Hfloor. pose proof (inv_y s HI) as Hy.
  split; [lia|]. split.
  - destruct (dropLoop_terminates (Z.to_nat BOARD_HEIGHT) s HI)
      as (s' & Hd & HI' & Hm).
    { unfold BOARD_HEIGHT in *. lia. }
    exists s'. split; [exact Hd|]. split; [exact Hm|].
    split; [pose proof (inv_above_floor s' HI'); pose proof (inv_y s' HI'); lia|].
    destruct (lockPiece_spec s' HI') as (b' & Hlock & _). eauto.
  - intros fuel Hfuel.
    destruct (dropLoop_terminates fuel s HI) as (s' & Hd & HI' & _).
    { unfold BOARD_HEIGHT in *. lia. }
    destruct (dropLoop_inv fuel s s' HI Hd) as (_ & Hl & Hv & _).
    destruct (lockClearSpawn_returns fuel s' HI') as (ok & s3 & Hs3);
      [unfold levelOk in *; congruence|exact Hfuel|].
    unfold hardDrop. rewrite Hd. fields. rewrite Hs3. fields. eauto.
Qed.

Lemma hardDrop_terminates_witness :
  reachable (started 0) /\ gameRunning (started 0) = true /\
  exists s', dropLoop (Z.to_nat BOARD_HEIGHT) (started 0) = Ok s' /\
    currentY s' = 19.
Proof.
  assert (Hr : reachable (started 0)) by (apply started_reachable; lia).
  assert (Hg : gameRunning (started 0) = true) by (vm_compute; reflexivity).
  split; [exact Hr|]. split; [exact Hg|].
  destruct (hardDrop_terminates (started 0) Hr Hg)
    as (_ & _ & (s' & Hd & _) & _).
  exists s'. split; [exact Hd|].
  assert (E : exists t, dropLoop (Z.to_nat BOARD_HEIGHT) (started 0) = Ok t /\
                        currentY t = 19).
  { eexists. split; vm_compute; reflexivity. }
  destruct E as (t & Ht & Hy). rewrite Ht in Hd. inversion Hd; subst t. exact Hy.
Defined.

(** * Further properties *)

(** ** What one call changes *)

Lemma pieceOnly_refl (s : Game) : pieceOnly s s.
Proof. unfold pieceOnly. repeat split. Qed.

Lemma pieceOnly_trans (s t u : Game) :
  pieceOnly s t -> pieceOnly t u -> pieceOnly s u.
Proof.
  unfold pieceOnly.
  intros (A1 & A2 & A3 & A4 & A5 & A6 & A7 & A8 & A9 & A10)
         (B1 & B2 & B3 & B4 & B5 & B6 & B7 & B8 & B9 & B10).
  repeat split; congruence.
Qed.

Lemma movePiece_effect (dx dy : Z) (s s' : Game) (ok : bool) :
  movePiece dx dy s = Ok (ok, s') ->
  s' = if ok
       then set_currentY (currentY s + dy) (set_currentX (currentX s + dx) s)
       else s.
Proof.
  unfold movePiece. destruct (currentPiece s) as [p|]; [|discriminate].
  destruct (isValidPosition _ _ _ _) as [[|]| |]; fields; try discriminate;
    intros H; inversion H; reflexivity.
Qed.

Lemma movePiece_pieceOnly (dx dy : Z) (s s' : Game) (ok : bool) :
  movePiece dx dy s = Ok (ok, s') ->
  pieceOnly s s' /\ currentPiece s' = currentPiece s /\
  nextPieceIndex s' = nextPieceIndex s.
Proof.
  intros H. apply movePiece_effect in H. subst s'.
  destruct ok; unfold pieceOnly; fields; repeat split.
Qed.

Lemma tryKicks_effect (s s' : Game) (p : Piece) (m : Shape) :
  forall ks : list Z,
  tryKicks s p m ks = Ok s' ->
  s' = s \/
  exists k, In k ks /\
    isValidPosition (board s) m (currentX s + k) (currentY s) = Ok true /\
    s' = set_currentX (currentX s + k)
           (set_currentPiece (Some (mkPiece m (color p) (char p))) s).
Proof.
  induction ks as [|k ks IH]; simpl; intros H.
  - inversion H. left. reflexivity.
  - destruct (isValidPosition (board s) m (currentX s + k) (currentY s))
      as [[|]| |] eqn:E; fields in H; try discriminate.
    + inversion H. right. exists k. auto.
    + destruct (IH H) as [->|(k' & Hin & Hv & ->)]; [left; reflexivity|].
      right. exists k'. auto.
Qed.

Lemma rotatePiece_effect (s s' : Game) :
  rotatePiece s = Ok s' ->
  s' = s \/
  exists p m k,
    currentPiece s = Some p /\ rotate (shape p) = Ok m /\ In k kicks /\
    isValidPosition (board s) m (currentX s + k) (currentY s) = Ok true /\
    s' = set_currentX (currentX s + k)
           (set_currentPiece (Some (mkPiece m (color p) (char p))) s).
Proof.
  unfold rotatePiece. destruct (currentPiece s) as [p|]; [|discriminate].
  destruct (rotate (shape p)) as [m| |] eqn:Em; fields; try discriminate.
  intros H. destruct (tryKicks_effect s s' p m kicks H)
    as [->|(k & Hin & Hv & ->)]; [left; reflexivity|].
  right. exists p, m, k. auto.
Qed.

Lemma rotatePiece_pieceOnly (s s' : Game) :
  rotatePiece s = Ok s' ->
  pieceOnly s s' /\ currentY s' = currentY s /\
  nextPieceIndex s' = nextPieceIndex s.
Proof.
  intros H. destruct (rotatePiece_effect s s' H)
    as [->|(p & m & k & _ & _ & _ & _ & ->)].
  - split; [apply pieceOnly_refl|]. auto.
  - unfold pieceOnly. fields. repeat split.
Qed.

Lemma dropLoop_effect (fuel : nat) :
  forall s s' : Game,
  dropLoop fuel s = Ok s' ->
  pieceOnly s s' /\ currentPiece s' = currentPiece s /\
  currentX s' = currentX s /\ currentY s <= currentY s' /\
  nextPieceIndex s' = nextPieceIndex s.
Proof.
  induction fuel as [|fuel IH]; intros s s' H; [discriminate|].
  simpl in H. destruct (movePiece 0 1 s) as [[ok s1]| |] eqn:E;
    try discriminate. fields in H.
  apply movePiece_effect in E. destruct ok.
  - destruct (IH _ _ H) as (A & B & C & D & F). subst s1.
    fields in B. fields in C. fields in D. fields in F.
    split; [|repeat split; try assumption; lia].
    apply pieceOnly_trans with (2 := A). unfold pieceOnly. fields.
    repeat split.
  - inversion H; subst. split; [apply pieceOnly_refl|].
    repeat split. lia.
Qed.

Lemma lockPiece_effect (s s' : Game) :
  lockPiece s = Ok s' -> exists b, s' = set_board b s.
Proof.
  unfold lockPiece. destruct (currentPiece s) as [p|]; [|discriminate].
  destruct (lockRows _ _ _ _ _ _) as [b| |]; fields; try discriminate.
  intros H. inversion H. exists b. reflexivity.
Qed.

Lemma clearLines_effect (fuel : nat) (s s' : Game) (v : jsvalue) :
  clearLines fuel s = Ok (v, s') ->
  v = Undefined /\
  exists b k, clearLoop fuel (BOARD_HEIGHT - 1) (board s) 0 = Ok (b, k) /\
    s' = tally k (set_board b s).
Proof.
  unfold clearLines.
  destruct (clearLoop fuel (BOARD_HEIGHT - 1) (board s) 0) as [[b k]| |];
    fields; try discriminate.
  intros H. inversion H. split; [reflexivity|]. exists b, k. auto.
Qed.

Lemma gameOver_pieces (t : Game) :
  board (gameOver t) = board t /\ score (gameOver t) = score t /\
  lines (gameOver t) = lines t /\ level (gameOver t) = level t /\
  highScore (gameOver t) = highScore t /\ gameRunning (gameOver t) = false /\
  gamePaused (gameOver t) = gamePaused t /\
  startPending (gameOver t) = startPending t /\
  exited (gameOver t) = exited t /\
  currentPiece (gameOver t) = currentPiece t /\
  currentX (gameOver t) = currentX t /\ currentY (gameOver t) = currentY t /\
  nextPieceIndex (gameOver t) = nextPieceIndex t.
Proof.
  unfold gameOver, saveHighScore. fields.
  destruct (num_gt _ _); fields; repeat split.
Qed.

Lemma spawnPiece_effect (s s' : Game) (ok : bool) :
  spawnPiece s = Ok (ok, s') ->
  exists t, pieceOnly s t /\ currentY t = 0 /\
    s' = if ok then t else gameOver t.
Proof.
  unfold spawnPiece.
  set (s0 := if nextPieceIndex s =? -1
             then let (i, s') := randomIndex s in set_nextPieceIndex i s'
             else s).
  assert (H0 : pieceOnly s s0).
  { unfold s0. destruct (nextPieceIndex s =? -1); [|apply pieceOnly_refl].
    unfold randomIndex, pieceOnly. fields. repeat split. }
  clearbody s0. unfold randomIndex.
  destruct (PIECES_at (nextPieceIndex s0)) as [p|]; [|discriminate].
  destruct (shape p) as [|r0 rest]; [discriminate|]. fields.
  match goal with |- context [Ok (true, ?u)] => set (t := u) end.
  assert (Ht : pieceOnly s t /\ currentY t = 0).
  { split; [|reflexivity]. apply pieceOnly_trans with (1 := H0).
    unfold t, pieceOnly. fields. repeat split. }
  destruct (isValidPosition _ _ _ _) as [[|]| |]; fields; try discriminate;
    intros H; inversion H; exists t; destruct Ht; auto.
Qed.

(** ** The cases of one callback *)

Section Callback.
Variable fuel : nat.
Variable s : Game.
Variable Q : Game -> Prop.

Hypothesis Q_same : Q s.
Hypothesis Q_pause :
  gameRunning s = true -> Q (set_gamePaused (negb (gamePaused s)) s).
Hypothesis Q_move :
  gameRunning s = true -> gamePaused s = false ->
  forall dx dy ok s', 0 <= dy -> movePiece dx dy s = Ok (ok, s') -> Q s'.
Hypothesis Q_rotate :
  gameRunning s = true -> gamePaused s = false ->
  forall s', rotatePiece s = Ok s' -> Q s'.
Hypothesis Q_land :
  gameRunning s = true -> gamePaused s = false ->
  forall s0 ok s',
    s0 = s \/ dropLoop fuel s = Ok s0 ->
    lockClearSpawn fuel s0 = Ok (ok, s') -> Q s'.
Hypothesis Q_quit :
  gameRunning s = true -> gamePaused s = false -> Q (quitGame s).
Hypothesis Q_restart :
  gameRunning s = false -> forall s', initGame s = Ok s' -> Q s'.
Hypothesis Q_start :
  forall s1 s', Q s1 -> startPending s1 = true -> exited s1 = false ->
    initGame (set_startPending false s1) = Ok s' -> Q s'.

Lemma handleInput_effect (k : string) (s' : Game) :
  handleInput fuel k s = Ok s' -> Q s'.
Proof.
  unfold handleInput. destruct (gameRunning s) eqn:Hrun; simpl negb; cbv iota.
  2:{ destruct (keyIs "r" k || keyIs "R" k).
      - apply Q_restart. reflexivity.
      - intros H. inversion H; subst s'. exact Q_same. }
  destruct (keyIs "p" k || keyIs "P" k).
  { intros H. inversion H; subst s'. apply Q_pause. reflexivity. }
  destruct (gamePaused s) eqn:Hp.
  { intros H. inversion H; subst s'. exact Q_same. }
  destruct (keyIs "left" k || keyIs "a" k).
  { destruct (movePiece (-1) 0 s) as [[ok s1]| |] eqn:E; fields;
      try discriminate.
    intros H. inversion H; subst s'.
    apply (Q_move eq_refl eq_refl (-1) 0 ok); [lia|exact E]. }
  destruct (keyIs "right" k || keyIs "d" k).
  { destruct (movePiece 1 0 s) as [[ok s1]| |] eqn:E; fields;
      try discriminate.
    intros H. inversion H; subst s'.
    apply (Q_move eq_refl eq_refl 1 0 ok); [lia|exact E]. }
  destruct (keyIs "up" k || keyIs "w" k).
  { apply Q_rotate; reflexivity. }
  destruct (keyIs "down" k || keyIs "s" k).
  { destruct (movePiece 0 1 s) as [[ok s1]| |] eqn:E; fields;
      try discriminate.
    destruct ok.
    - intros H. inversion H; subst s'.
      apply (Q_move eq_refl eq_refl 0 1 true); [lia|exact E].
    - apply movePiece_effect in E. subst s1.
      destruct (lockClearSpawn fuel s) as [[ok2 s2]| |] eqn:E2; fields;
        try discriminate.
      intros H. inversion H; subst s'.
      apply (Q_land eq_refl eq_refl s ok2); [left; reflexivity|exact E2]. }
  destruct (keyIs "space" k).
  { unfold hardDrop.
    destruct (dropLoop fuel s) as [s0| |] eqn:E0; fields; try discriminate.
    destruct (lockClearSpawn fuel s0) as [[ok2 s2]| |] eqn:E2; fields;
      try discriminate.
    intros H. inversion H; subst s'.
    apply (Q_land eq_refl eq_refl s0 ok2); [right; reflexivity|exact E2]. }
  destruct (keyIs "q" k || keyIs "Q" k || keyIs "escape" k).
  { intros H. inversion H; subst s'. apply Q_quit; reflexivity. }
  intros H. inversion H; subst s'. exact Q_same.
Qed.

Lemma gameTick_effect (s' : Game) :
  gameTick fuel s = Ok s' -> Q s'.
Proof using Q_same Q_move Q_land.
  clear Q_pause Q_rotate Q_quit Q_restart Q_start.
  unfold gameTick. destruct (gameRunning s) eqn:Hrun; simpl negb; simpl orb.
  2:{ intros H. inversion H; subst s'. exact Q_same. }
  destruct (gamePaused s) eqn:Hp.
  { intros H. inversion H; subst s'. exact Q_same. }
  destruct (movePiece 0 1 s) as [[ok s1]| |] eqn:E; fields; try discriminate.
  destruct ok.
  - intros H. inversion H; subst s'.
    apply (Q_move eq_refl eq_refl 0 1 true); [lia|exact E].
  - apply movePiece_effect in E. subst s1.
    destruct (lockClearSpawn fuel s) as [[ok2 s2]| |] eqn:E2; fields;
      try discriminate.
    intros H. inversion H; subst s'.
    apply (Q_land eq_refl eq_refl s ok2); [left; reflexivity|exact E2].
Qed.

Lemma dispatch_effect (ev : event) (s' : Game) :
  dispatch fuel ev s = Ok s' -> Q s'.
Proof.
  unfold dispatch. destruct (exited s).
  { intros H. inversion H; subst s'. exact Q_same. }
  destruct ev as [key|]; [|apply gameTick_effect].
  assert (Hkey : forall s1,
    match key with Some k => handleInput fuel k s | None => Ok s end = Ok s1 ->
    Q s1).
  { intros s1. destruct key as [k|]; [apply handleInput_effect|].
    intros H. inversion H; subst s1. exact Q_same. }
  destruct (match key with Some k => handleInput fuel k s | None => Ok s end)
    as [s1| |]; fields; try discriminate.
  specialize (Hkey s1 eq_refl).
  destruct (exited s1) eqn:He.
  { intros H. inversion H; subst s'. exact Hkey. }
  destruct (startPending s1) eqn:Hs.
  - apply Q_start; assumption.
  - intros H. inversion H; subst s'. exact Hkey.
Qed.
End Callback.

(** ** Landing and starting, on any state *)

Lemma tally_frame (k : nat) (u : Game) :
  board (tally k u) = board u /\ highScore (tally k u) = highScore u /\
  gameRunning (tally k u) = gameRunning u /\
  gamePaused (tally k u) = gamePaused u /\ hsFile (tally k u) = hsFile u /\
  startPending (tally k u) = startPending u /\ exited (tally k u) = exited u /\
  lines (tally k u) = lines u + Z.of_nat k /\
  score (tally k u) =
    (if (0 <? k)%nat then num_add (score u) (pointsFor k (level u)) else score u) /\
  level (tally k u) =
    (if (0 <? k)%nat then (lines u + Z.of_nat k) / 10 + 1 else level u).
Proof.
  unfold tally. destruct (Nat.ltb_spec 0 k); fields; repeat split.
  replace k with 0%nat by lia. lia.
Qed.

Lemma lockClearSpawn_effect (fuel : nat) (s s' : Game) (ok : bool) :
  lockClearSpawn fuel s = Ok (ok, s') ->
  exists b1 b k t,
    lockPiece s = Ok (set_board b1 s) /\
    clearLoop fuel (BOARD_HEIGHT - 1) b1 0 = Ok (b, k) /\
    pieceOnly (tally k (set_board b s)) t /\ currentY t = 0 /\
    s' = if ok then t else gameOver t.
Proof.
  unfold lockClearSpawn. intros H.
  destruct (lockPiece s) as [s1| |] eqn:E1; fields in H; try discriminate.
  destruct (lockPiece_effect _ _ E1) as (b1 & ->).
  destruct (clearLines fuel (set_board b1 s)) as [[v s2]| |] eqn:E2;
    fields in H; try discriminate.
  destruct (clearLines_effect _ _ _ _ E2) as (_ & b & k & Hloop & ->).
  fields in Hloop.
  destruct (spawnPiece_effect _ _ _ H) as (t & Ht & Hy & ->).
  exists b1, b, k, t.
  split; [reflexivity|]. split; [exact Hloop|]. split; [exact Ht|].
  split; [exact Hy|reflexivity].
Qed.

Lemma bind_Ok_inv {A B : Type} (m : outcome A) (k : A -> outcome B) (r : B) :
  bind m k = Ok r -> exists a, m = Ok a /\ k a = Ok r.
Proof.
  destruct m as [a| |]; simpl; intros H; try discriminate.
  exists a. auto.
Qed.

Lemma initGame_unfold (s : Game) :
  initGame s =
  ('(_, t) <- spawnPiece
      (set_gamePaused false
        (set_gameRunning true
          (set_nextPieceIndex (-1)
            (set_level 1 (set_lines 0 (set_score (Int 0) (initBoard s))))))) ;;
   Ok t).
Proof. reflexivity. Qed.

Lemma initGame_effect (s s' : Game) :
  initGame s = Ok s' ->
  board s' = repeat emptyRow (Z.to_nat BOARD_HEIGHT) /\
  score s' = Int 0 /\ lines s' = 0 /\ level s' = 1 /\
  gameRunning s' = true /\ gamePaused s' = false /\
  highScore s' = highScore s /\ hsFile s' = hsFile s /\
  startPending s' = startPending s /\ exited s' = exited s /\
  currentY s' = 0.
Proof.
  intros H. destruct (initGame_spec s) as (s'' & E & _ & _ & Hrun & _).
  rewrite H in E. inversion E; subst s''. clear E.
  rewrite initGame_unfold in H. apply bind_Ok_inv in H.
  destruct H as ([ok t'] & E & H). inversion H; subst t'. clear H.
  destruct (spawnPiece_effect _ _ _ E) as (t & Ht & Hy & Hs'). clear E.
  destruct ok.
  - subst s'. destruct Ht as (A1 & A2 & A3 & A4 & A5 & A6 & A7 & A8 & A9 & A10).
    split; [exact A1|]. split; [exact A2|]. split; [exact A3|].
    split; [exact A4|]. split; [exact A6|]. split; [exact A7|].
    split; [exact A5|]. split; [exact A8|]. split; [exact A9|].
    split; [exact A10|exact Hy].
  - subst s'. destruct (gameOver_pieces t) as (_ & _ & _ & _ & _ & Hf & _).
    congruence.
Qed.

(** ** The high-score variable and file *)

Lemma storeStep_refl (s : Game) : storeStep s s.
Proof. split; auto. Qed.

Lemma storeStep_trans (s t u : Game) :
  storeStep s t -> storeStep t u -> storeStep s u.
Proof.
  intros [H1 F1] [H2 F2]. split; [congruence|].
  destruct F2 as [F2|(n & F2 & Hn)].
  - rewrite F2. exact F1.
  - right. exists n. split; [exact F2|]. lia.
Qed.

Lemma pieceOnly_storeStep (s t : Game) : pieceOnly s t -> storeStep s t.
Proof.
  intros (_ & _ & _ & _ & H & _ & _ & F & _). split; auto.
Qed.

Lemma saveHighScore_storeStep (s : Game) : storeStep s (saveHighScore s).
Proof.
  unfold saveHighScore. destruct (score s) as [n|] eqn:E; simpl num_gt.
  - destruct (Z.gtb_spec n (highScore s)).
    + split; [reflexivity|]. right. exists n. fields. split; [reflexivity|lia].
    + apply storeStep_refl.
  - apply storeStep_refl.
Qed.

Lemma gameOver_storeStep (s : Game) : storeStep s (gameOver s).
Proof.
  unfold gameOver.
  apply storeStep_trans with (2 := saveHighScore_storeStep _).
  split; auto.
Qed.

Lemma quitGame_storeStep (s : Game) : storeStep s (quitGame s).
Proof.
  unfold quitGame.
  apply storeStep_trans with (t := saveHighScore (set_gameRunning false s)).
  - apply storeStep_trans with (2 := saveHighScore_storeStep _). split; auto.
  - split; auto.
Qed.

Lemma lockClearSpawn_storeStep (fuel : nat) (s s' : Game) (ok : bool) :
  lockClearSpawn fuel s = Ok (ok, s') -> storeStep s s'.
Proof.
  intros H.
  destruct (lockClearSpawn_effect _ _ _ _ H) as (b1 & b & k & t & _ & _ & Ht & _ & ->).
  assert (Hst : storeStep s t).
  { apply pieceOnly_storeStep in Ht.
    apply storeStep_trans with (2 := Ht).
    destruct (tally_frame k (set_board b s)) as (_ & A & _ & _ & B & _).
    split; [exact A|left; exact B]. }
  destruct ok; [exact Hst|].
  apply storeStep_trans with (1 := Hst). apply gameOver_storeStep.
Qed.

Lemma dispatch_storeStep (fuel : nat) (ev : event) (s s' : Game) :
  dispatch fuel ev s = Ok s' -> storeStep s s'.
Proof.
  apply dispatch_effect with (Q := storeStep s).
  - apply storeStep_refl.
  - intros _. split; auto.
  - intros _ _ dx dy ok t _ H. apply pieceOnly_storeStep.
    apply (movePiece_pieceOnly _ _ _ _ _ H).
  - intros _ _ t H. apply pieceOnly_storeStep.
    apply (rotatePiece_pieceOnly _ _ H).
  - intros _ _ s0 ok t [->|Hd] H.
    + apply (lockClearSpawn_storeStep _ _ _ _ H).
    + apply storeStep_trans with (t := s0).
      * apply pieceOnly_storeStep. apply (dropLoop_effect _ _ _ Hd).
      * apply (lockClearSpawn_storeStep _ _ _ _ H).
  - intros _ _. apply quitGame_storeStep.
  - intros _ t H. destruct (initGame_effect _ _ H) as (_ & _ & _ & _ & _ & _ & A & B & _).
    split; auto.
  - intros s1 t Hs1 _ _ H. apply storeStep_trans with (1 := Hs1).
    destruct (initGame_effect _ _ H) as (_ & _ & _ & _ & _ & _ & A & B & _).
    split; auto.
Qed.

Lemma run_storeStep (fuel : nat) (evs : list event) :
  forall s s', run fuel evs s = Ok s' -> storeStep s s'.
Proof.
  induction evs as [|ev evs IH]; intros s s' H; simpl in H.
  - inversion H. apply storeStep_refl.
  - destruct (dispatch fuel ev s) as [s1| |] eqn:E; fields in H;
      try discriminate.
    apply storeStep_trans with (t := s1).
    + apply (dispatch_storeStep _ _ _ _ E).
    + apply IH. exact H.
Qed.

(** X4.  Whatever the player does in one process, the variable
    [highScore] keeps the value read at start-up, and the file either still
    has its start-up content or holds an integer greater than that value:
    a process never leaves less in the file than it found. *)
Theorem process_never_lowers_startup_score
  (fuel : nat) (evs : list event) (file : option num) (rnd : nat -> nat)
  (s : Game) :
  run fuel evs (main file rnd) = Ok s ->
  highScore s = match file with Some data => parseInt_or_0 data | None => 0 end /\
  (hsFile s = file \/
   exists n, hsFile s = Some (Int n) /\ highScore s < n).
Proof.
  intros H. destruct (run_storeStep _ _ _ _ H) as [Hh Hf].
  assert (E0 : highScore (main file rnd) =
               match file with Some data => parseInt_or_0 data | None => 0 end
               /\ hsFile (main file rnd) = file).
  { unfold main, loadHighScore. fields. destruct file; fields; auto. }
  destruct E0 as [E1 E2]. rewrite E2 in Hf. rewrite <- Hh in Hf.
  split; [congruence|exact Hf].
Qed.

(** ** Started, exited, running *)

Lemma lockClearSpawn_frame (fuel : nat) (s s' : Game) (ok : bool) :
  lockClearSpawn fuel s = Ok (ok, s') ->
  startPending s' = startPending s /\ exited s' = exited s /\
  gamePaused s' = gamePaused s /\
  gameRunning s' = (gameRunning s && ok)%bool /\ currentY s' = 0.
Proof.
  intros H.
  destruct (lockClearSpawn_effect _ _ _ _ H)
    as (b1 & b & k & t & _ & _ & Ht & Hy & ->).
  destruct Ht as (_ & _ & _ & _ & _ & A6 & A7 & _ & A9 & A10).
  destruct (tally_frame k (set_board b s)) as (_ & _ & B3 & B4 & _ & B6 & B7 & _).
  fields in B3. fields in B4. fields in B6. fields in B7.
  destruct ok.
  - rewrite andb_true_r. repeat split; congruence.
  - destruct (gameOver_pieces t)
      as (_ & _ & _ & _ & _ & C6 & C7 & C8 & C9 & _ & _ & C12 & _).
    rewrite andb_false_r. repeat split; congruence.
Qed.

Lemma dispatch_exited (fuel : nat) (ev : event) (s s' : Game) :
  exited s = true -> dispatch fuel ev s = Ok s' -> s' = s.
Proof.
  unfold dispatch. intros ->. intros H. inversion H. reflexivity.
Qed.

Lemma dispatch_key_started (fuel : nat) (key : option string) (s s' : Game) :
  exited s = false -> dispatch fuel (Keypress key) s = Ok s' ->
  startPending s' = false \/ exited s' = true.
Proof.
  unfold dispatch. intros ->.
  destruct (match key with Some k => handleInput fuel k s | None => Ok s end)
    as [s1| |]; fields; try discriminate.
  destruct (exited s1) eqn:He.
  { intros H. inversion H; subst s'. right. exact He. }
  destruct (startPending s1) eqn:Hs.
  - intros H. destruct (initGame_effect _ _ H) as (_ & _ & _ & _ & _ & _ & _ & _ & A & _).
    left. exact A.
  - intros H. inversion H; subst s'. left. exact Hs.
Qed.

Lemma exited_not_running (fuel : nat) (ev : event) (s s' : Game) :
  exited s = false -> dispatch fuel ev s = Ok s' ->
  exited s' = true -> gameRunning s' = false.
Proof.
  intros He Hd. pattern s'.
  apply (dispatch_effect fuel s) with (ev := ev); cbv beta; [..|exact Hd].
  - congruence.
  - intros _. fields. congruence.
  - intros _ _ dx dy ok t _ H.
    destruct (movePiece_pieceOnly _ _ _ _ _ H) as ((_ & _ & _ & _ & _ & _ & _ & _ & _ & A) & _).
    congruence.
  - intros _ _ t H.
    destruct (rotatePiece_pieceOnly _ _ H) as ((_ & _ & _ & _ & _ & _ & _ & _ & _ & A) & _).
    congruence.
  - intros _ _ s0 ok t Hs0 H.
    destruct (lockClearSpawn_frame _ _ _ _ H) as (_ & A & _).
    destruct Hs0 as [->|Hdrop]; [congruence|].
    destruct (dropLoop_effect _ _ _ Hdrop) as ((_ & _ & _ & _ & _ & _ & _ & _ & _ & B) & _).
    congruence.
  - intros _ _ _. unfold quitGame, saveHighScore. fields.
    destruct (num_gt _ _); reflexivity.
  - intros _ t H. destruct (initGame_effect _ _ H) as (_ & _ & _ & _ & _ & _ & _ & _ & _ & A & _).
    congruence.
  - intros s1 t _ _ He1 H.
    destruct (initGame_effect _ _ H) as (_ & _ & _ & _ & _ & _ & _ & _ & _ & A & _).
    fields in A. congruence.
Qed.

Lemma gameTick_keeps_flags (fuel : nat) (s s' : Game) :
  gameTick fuel s = Ok s' ->
  startPending s' = startPending s /\ exited s' = exited s /\
  (gameRunning s' = true -> gameRunning s = true).
Proof.
  apply gameTick_effect
    with (Q := fun s1 => startPending s1 = startPending s /\
                         exited s1 = exited s /\
                         (gameRunning s1 = true -> gameRunning s = true)).
  - auto.
  - intros Hr Hp dx dy ok t _ H.
    destruct (movePiece_pieceOnly _ _ _ _ _ H) as ((_ & _ & _ & _ & _ & _ & _ & _ & A & B) & _).
    auto.
  - intros Hr Hp s0 ok t Hs0 H.
    destruct (lockClearSpawn_frame _ _ _ _ H) as (A & B & _).
    destruct Hs0 as [->|Hd]; [auto|].
    destruct (dropLoop_effect _ _ _ Hd) as ((_ & _ & _ & _ & _ & _ & _ & _ & C & D) & _).
    repeat split; congruence.
Qed.

(** While the game runs the [once] listener has fired and the process has
    not exited. *)
Lemma running_started (s : Game) :
  reachable s ->
  (startPending s = true -> gameRunning s = false) /\
  (exited s = true -> gameRunning s = false).
Proof.
  induction 1 as [file rnd|fuel ev s s' Hreach [IH1 IH2] Hd].
  - unfold main, loadHighScore. fields. destruct file; fields; auto.
  - destruct (exited s) eqn:He.
    { apply dispatch_exited in Hd; [|exact He]. subst s'. rewrite He. auto. }
    pose proof (exited_not_running _ _ _ _ He Hd) as Hex.
    split; [|exact Hex]. intros Hs.
    destruct ev as [key|].
    + destruct (dispatch_key_started _ _ _ _ He Hd) as [A|A]; [congruence|auto].
    + unfold dispatch in Hd. rewrite He in Hd.
      destruct (gameTick_keeps_flags _ _ _ Hd) as (A & B & C).
      destruct (gameRunning s') eqn:Hr; [|reflexivity].
      rewrite IH1 in C by congruence. symmetry. auto.
Qed.

(** ** Score, lines and level *)

Lemma landing_count (fuel : nat) (s s' : Game) (ok : bool) :
  Inv s -> lockClearSpawn fuel s = Ok (ok, s') ->
  exists k : nat,
    (k <= 4)%nat /\ lines s' = lines s + Z.of_nat k /\
    score s' =
      (if (0 <? k)%nat then num_add (score s) (pointsFor k (level s))
       else score s) /\
    level s' =
      (if (0 <? k)%nat then (lines s + Z.of_nat k) / 10 + 1 else level s).
Proof.
  intros HI H.
  destruct (lockClearSpawn_effect _ _ _ _ H)
    as (b1 & b & k & t & Hlock & Hloop & Ht & _ & ->).
  destruct (lockPiece_spec s HI) as (b1' & Hlock' & Hwf & Hle).
  rewrite Hlock in Hlock'. inversion Hlock' as [Hb]. subst b1'.
  apply clearLoop_mono with (fuel' := Nat.max fuel 41) in Hloop; [|lia].
  rewrite (clearLoop_board _ b1 (proj1 Hwf)) in Hloop by lia.
  inversion Hloop; subst b k. clear Hloop.
  exists (fullCount b1). split; [exact Hle|].
  destruct Ht as (_ & A2 & A3 & A4 & _).
  destruct (tally_frame (fullCount b1)
              (set_board (repeat emptyRow (fullCount b1) ++ keptRows b1) s))
    as (_ & _ & _ & _ & _ & _ & _ & B8 & B9 & B10).
  fields in B8. fields in B9. fields in B10.
  destruct ok.
  - repeat split; congruence.
  - destruct (gameOver_pieces t) as (_ & C2 & C3 & C4 & _).
    repeat split; congruence.
Qed.

Lemma pointsFor_table (k : nat) (lvl : Z) :
  (k <= 4)%nat ->
  pointsFor k lvl = Int (nth k points 0 * lvl) /\
  100 * Z.of_nat k <= nth k points 0.
Proof.
  intros Hk. do 5 (destruct k as [|k]; [split; [reflexivity|simpl; lia]|]). lia.
Qed.

Lemma score_invariant (s : Game) :
  reachable s ->
  exists n, score s = Int n /\ 0 <= lines s /\ 100 * lines s <= n.
Proof.
  induction 1 as [file rnd|fuel ev s s' Hreach IH Hd].
  - unfold main, loadHighScore. fields.
    destruct file; fields; exists 0; repeat split; lia.
  - destruct (reachable_inv s Hreach) as [Hlv HI].
    pattern s'. apply (dispatch_effect fuel s) with (ev := ev); cbv beta;
      [..|exact Hd].
    + exact IH.
    + intros _. fields. exact IH.
    + intros _ _ dx dy ok t _ H.
      destruct (movePiece_pieceOnly _ _ _ _ _ H) as ((_ & A & B & _) & _).
      rewrite A, B. exact IH.
    + intros _ _ t H.
      destruct (rotatePiece_pieceOnly _ _ H) as ((_ & A & B & _) & _).
      rewrite A, B. exact IH.
    + intros Hr _ s0 ok t Hs0 H.
      assert (Hs0' : Inv s0 /\ score s0 = score s /\ lines s0 = lines s /\
                     level s0 = level s).
      { destruct Hs0 as [->|Hdrop]; [auto|].
        destruct (dropLoop_inv _ _ _ (HI Hr) Hdrop) as (A & _).
        destruct (dropLoop_effect _ _ _ Hdrop) as ((_ & B & C & D & _) & _).
        auto. }
      destruct Hs0' as (HI0 & E1 & E2 & E3).
      destruct (landing_count _ _ _ _ HI0 H) as (k & Hk & Hl & Hsc & _).
      destruct IH as (n & Hn & Hl0 & Hb).
      rewrite E1, E3, Hn in Hsc. rewrite E2 in Hl.
      destruct (pointsFor_table k (level s) Hk) as [Hp Hq].
      assert (Hlevel : 1 <= level s).
      { unfold levelOk in Hlv. rewrite Hlv.
        pose proof (Z.div_pos (lines s) 10 Hl0 ltac:(lia)). lia. }
      destruct (Nat.ltb_spec 0 k).
      * rewrite Hp in Hsc. simpl num_add in Hsc.
        exists (n + nth k points 0 * level s). split; [exact Hsc|]. nia.
      * exists n. split; [exact Hsc|]. lia.
    + intros _ _. unfold quitGame, saveHighScore. fields.
      destruct (num_gt _ _); fields; exact IH.
    + intros _ t H.
      destruct (initGame_effect _ _ H) as (_ & A & B & _).
      exists 0. rewrite A, B. repeat split; lia.
    + intros s1 t _ _ _ H.
      destruct (initGame_effect _ _ H) as (_ & A & B & _).
      exists 0. rewrite A, B. repeat split; lia.
Qed.

Lemma score_lines_level (s : Game) :
  reachable s ->
  exists n, score s = Int n /\ 0 <= lines s /\ 1 <= level s /\
    100 * lines s <= n.
Proof.
  intros Hreach. destruct (score_invariant s Hreach) as (n & Hn & Hl & Hb).
  destruct (reachable_inv s Hreach) as [Hlv _]. unfold levelOk in Hlv.
  exists n. repeat split; try assumption.
  rewrite Hlv. pose proof (Z.div_pos (lines s) 10 Hl ltac:(lia)). lia.
Qed.

(** X5.  In every reachable state the score is an integer (never
    NaN), the line count is not negative, the level is at least 1 and the
    score is at least 100 points per cleared line. *)
Theorem score_is_a_number (s : Game) :
  reachable s ->
  exists n, score s = Int n /\ 0 <= lines s /\ 1 <= level s /\
    100 * lines s <= n.
Proof. exact (score_lines_level s). Qed.

(** X6.  No callback lowers the score, the line count or the level of
    a running game; a landing that clears [k] rows adds [k] to [lines] and
    [points[k]] times the level held before to [score]. *)
Theorem callback_never_lowers_score (fuel : nat) (ev : event) (s s' : Game) :
  reachable s -> gameRunning s = true -> dispatch fuel ev s = Ok s' ->
  exists n k,
    (k <= 4)%nat /\
    score s = Int n /\ score s' = Int (n + nth k points 0 * level s) /\
    lines s' = lines s + Z.of_nat k /\ level s <= level s' /\
    0 <= nth k points 0 * level s.
Proof.
  intros Hreach Hrun Hd.
  destruct (score_lines_level s Hreach) as (n & Hn & Hl & Hlevel & _).
  destruct (reachable_inv s Hreach) as [Hlv HI]. specialize (HI Hrun).
  destruct (running_started s Hreach) as [Hst _].
  assert (Hsp : startPending s = false).
  { destruct (startPending s); [|reflexivity]. rewrite Hst in Hrun; auto. }
  exists n.
  assert (Hsame : forall t, score t = score s -> lines t = lines s ->
    level t = level s -> startPending t = false ->
    startPending t = false /\
    exists k, (k <= 4)%nat /\ score s = Int n /\
      score t = Int (n + nth k points 0 * level s) /\
      lines t = lines s + Z.of_nat k /\ level s <= level t /\
      0 <= nth k points 0 * level s).
  { intros t A B C D. split; [exact D|]. exists 0%nat. simpl nth.
    rewrite A, B, C, Hn. repeat split; try lia. f_equal. lia. }
  assert (Hgoal : startPending s' = false /\
    exists k, (k <= 4)%nat /\ score s = Int n /\
      score s' = Int (n + nth k points 0 * level s) /\
      lines s' = lines s + Z.of_nat k /\ level s <= level s' /\
      0 <= nth k points 0 * level s); [|apply Hgoal].
  pattern s'. apply (dispatch_effect fuel s) with (ev := ev); cbv beta;
    [..|exact Hd].
  - apply Hsame; auto.
  - intros _. apply Hsame; auto.
  - intros _ _ dx dy ok t _ H.
    destruct (movePiece_pieceOnly _ _ _ _ _ H)
      as ((_ & A & B & C & _ & _ & _ & _ & D & _) & _).
    apply Hsame; congruence.
  - intros _ _ t H.
    destruct (rotatePiece_pieceOnly _ _ H)
      as ((_ & A & B & C & _ & _ & _ & _ & D & _) & _).
    apply Hsame; congruence.
  - intros _ _ s0 ok t Hs0 H.
    assert (Hs0' : Inv s0 /\ score s0 = score s /\ lines s0 = lines s /\
                   level s0 = level s /\ startPending s0 = startPending s).
    { destruct Hs0 as [->|Hdrop]; [auto|].
      destruct (dropLoop_inv _ _ _ HI Hdrop) as (A & _).
      destruct (dropLoop_effect _ _ _ Hdrop)
        as ((_ & B & C & D & _ & _ & _ & _ & E & _) & _).
      auto. }
    destruct Hs0' as (HI0 & E1 & E2 & E3 & E4).
    destruct (landing_count _ _ _ _ HI0 H) as (k & Hk & Hl' & Hsc & Hlev).
    destruct (lockClearSpawn_frame _ _ _ _ H) as (F & _).
    split; [congruence|].
    rewrite E1, E3, Hn in Hsc. rewrite E2 in Hl'. rewrite E2, E3 in Hlev.
    destruct (pointsFor_table k (level s) Hk) as [Hp Hq].
    exists k. split; [exact Hk|]. split; [exact Hn|].
    destruct (Nat.ltb_spec 0 k).
    + rewrite Hp in Hsc. simpl num_add in Hsc.
      split; [exact Hsc|]. split; [exact Hl'|]. split; [|nia].
      rewrite Hlev. unfold levelOk in Hlv. rewrite Hlv.
      pose proof (Z.div_le_mono (lines s) (lines s + Z.of_nat k) 10
                    ltac:(lia) ltac:(lia)). lia.
    + replace k with 0%nat in * by lia. simpl nth.
      split; [rewrite Hsc; f_equal; lia|]. split; [exact Hl'|].
      split; [lia|lia].
  - intros _ _. unfold quitGame, saveHighScore. fields.
    destruct (num_gt _ _); fields; apply Hsame; auto.
  - intros Hr. congruence.
  - intros s1 t [Hs1 _] Hs1' _ _. congruence.
Qed.

(** ** A finished game, a paused game *)

Lemma idle_dispatch (fuel : nat) (ev : event) (s : Game) :
  gameRunning s = false -> startPending s = false ->
  isRestartKey ev = false -> dispatch fuel ev s = Ok s.
Proof.
  intros Hrun Hsp Hev. unfold dispatch.
  destruct (exited s) eqn:He; [reflexivity|].
  destruct ev as [[k|]|].
  - unfold handleInput. rewrite Hrun. simpl negb. cbv iota.
    simpl in Hev. rewrite Hev. fields. rewrite He, Hsp. reflexivity.
  - fields. rewrite He, Hsp. reflexivity.
  - unfold gameTick. rewrite Hrun. reflexivity.
Qed.

(** X7.  Once a game is over (or before the first one has started and
    after the first key), no timer tick and no key other than [r] / [R]
    changes anything: in particular [q] does not quit. *)
Theorem finished_game_ignores_input (fuel : nat) (evs : list event) (s : Game) :
  gameRunning s = false -> startPending s = false ->
  forallb (fun ev => negb (isRestartKey ev)) evs = true ->
  run fuel evs s = Ok s.
Proof.
  intros Hrun Hsp. induction evs as [|ev evs IH]; intros Hevs; [reflexivity|].
  simpl in Hevs. apply andb_true_iff in Hevs. destruct Hevs as [Hev Hevs].
  apply negb_true_iff in Hev. simpl run.
  rewrite (idle_dispatch fuel ev s Hrun Hsp Hev). fields. apply IH, Hevs.
Qed.

Lemma paused_dispatch (fuel : nat) (ev : event) (s : Game) :
  gameRunning s = true -> gamePaused s = true -> startPending s = false ->
  isPauseKey ev = false -> dispatch fuel ev s = Ok s.
Proof.
  intros Hrun Hp Hsp Hev. unfold dispatch.
  destruct (exited s) eqn:He; [reflexivity|].
  destruct ev as [[k|]|].
  - unfold handleInput. rewrite Hrun. simpl negb. cbv iota.
    simpl in Hev. rewrite Hev, Hp. fields. rewrite He, Hsp. reflexivity.
  - fields. rewrite He, Hsp. reflexivity.
  - unfold gameTick. rewrite Hrun, Hp. reflexivity.
Qed.

Lemma paused_run (fuel : nat) (evs : list event) (s : Game) :
  gameRunning s = true -> gamePaused s = true -> startPending s = false ->
  forallb (fun ev => negb (isPauseKey ev)) evs = true ->
  run fuel evs s = Ok s.
Proof.
  intros Hrun Hp Hsp. induction evs as [|ev evs IH]; intros Hevs; [reflexivity|].
  simpl in Hevs. apply andb_true_iff in Hevs. destruct Hevs as [Hev Hevs].
  apply negb_true_iff in Hev. simpl run.
  rewrite (paused_dispatch fuel ev s Hrun Hp Hsp Hev). fields. apply IH, Hevs.
Qed.

Lemma run_app (fuel : nat) (evs1 evs2 : list event) (s : Game) :
  run fuel (evs1 ++ evs2) s = (s1 <- run fuel evs1 s ;; run fuel evs2 s1).
Proof.
  revert s. induction evs1 as [|ev evs1 IH]; intros s; [reflexivity|].
  simpl. destruct (dispatch fuel ev s) as [s1| |]; fields; auto.
Qed.

(** X8.  Between a press of [p] that pauses a running game and the
    press of [p] that resumes it, timer ticks and all other keys (moves,
    rotations, drops, [q]) are ignored: after the second press the state
    is exactly the one before the first. *)
Theorem pause_freezes_game (fuel : nat) (evs : list event) (s : Game) :
  reachable s -> gameRunning s = true -> gamePaused s = false ->
  forallb (fun ev => negb (isPauseKey ev)) evs = true ->
  run fuel (key "p" :: evs ++ [key "p"]) s = Ok s.
Proof.
  intros Hreach Hrun Hp Hevs.
  destruct (running_started s Hreach) as [Hst Hex].
  assert (Hsp : startPending s = false).
  { destruct (startPending s); [|reflexivity]. rewrite Hst in Hrun; auto. }
  assert (He : exited s = false).
  { destruct (exited s); [|reflexivity]. rewrite Hex in Hrun; auto. }
  assert (Hkey : forall t, gameRunning t = true -> startPending t = false ->
    exited t = false ->
    dispatch fuel (key "p") t = Ok (set_gamePaused (negb (gamePaused t)) t)).
  { intros t A B C. unfold dispatch, key. rewrite C. unfold handleInput.
    rewrite A. simpl negb. cbv iota.
    change (keyIs "p" "p" || keyIs "P" "p") with true. cbv iota. fields.
    rewrite C, B. reflexivity. }
  simpl run. rewrite (Hkey s Hrun Hsp He). fields. rewrite Hp. simpl negb.
  rewrite run_app.
  rewrite (paused_run fuel evs (set_gamePaused true s)); auto.
  fields. simpl run. rewrite Hkey by auto. fields.
  destruct s. simpl in *. subst. reflexivity.
Qed.

(** ** Starting a game *)

(** X9.  [initGame] returns from every state, and the game it leaves
    is running and not paused on an empty board, with score 0, no lines,
    level 1, the piece at row 0 inside the board and the tick interval at
    [INITIAL_SPEED]; the high-score variable and file are untouched.  The
    first spawn never ends the game. *)
Theorem initGame_fresh (s : Game) :
  exists s',
    initGame s = Ok s' /\
    board s' = repeat emptyRow (Z.to_nat BOARD_HEIGHT) /\
    score s' = Int 0 /\ lines s' = 0 /\ level s' = 1 /\
    gameRunning s' = true /\ gamePaused s' = false /\
    highScore s' = highScore s /\ hsFile s' = hsFile s /\
    currentY s' = 0 /\ pieceInBounds s' /\
    getSpeed s' = INITIAL_SPEED.
Proof.
  destruct (initGame_spec s) as (s' & E & HI & _).
  destruct (initGame_effect s s' E)
    as (A1 & A2 & A3 & A4 & A5 & A6 & A7 & A8 & _ & _ & A11).
  exists s'. repeat split; try assumption.
  - destruct HI as [Hwf _ (p & Hp & _ & Hvalid) _ _].
    exists p. split; [exact Hp|].
    apply (valid_cells_in_range _ _ _ _ (proj1 Hwf) Hvalid).
  - unfold getSpeed. rewrite A4. reflexivity.
Qed.

(** ** [clearLines] with nothing to clear *)

Lemma keptRows_all (b : Board) : fullCount b = 0%nat -> keptRows b = b.
Proof.
  induction b as [|r b IH]; [reflexivity|].
  rewrite fullCount_cons, keptRows_cons.
  destruct (rowFull r); [discriminate|]. simpl. intros H. rewrite IH; auto.
Qed.

Lemma set_board_same (s : Game) : set_board (board s) s = s.
Proof. destruct s. reflexivity. Qed.

Lemma clearLines_none (fuel : nat) (s : Game) :
  tall (board s) -> fullCount (board s) = 0%nat -> (21 <= fuel)%nat ->
  clearLines fuel s = Ok (Undefined, s).
Proof.
  intros Hb Hfull Hfuel. unfold clearLines.
  pose proof (clearLoop_spec fuel (board s) [] 0) as H.
  unfold tall in Hb. rewrite Hb, !app_nil_r, Hfull in H.
  rewrite (keptRows_all _ Hfull) in H.
  rewrite H by (unfold BOARD_HEIGHT in Hb; lia).
  fields. unfold tally. simpl. rewrite set_board_same. reflexivity.
Qed.


Lemma clearLines_board (fuel : nat) (s s' : Game) (v : jsvalue) :
  wellFormed (board s) -> clearLines fuel s = Ok (v, s') ->
  wellFormed (board s') /\ fullCount (board s') = 0%nat.
Proof.
  intros Hwf H. apply (clearLines_result _ _ _ _ (proj1 Hwf)) in H.
  rewrite (clearLines_eq _ s (proj1 Hwf)) in H by lia. cbv zeta in H.
  inversion H; subst v s'.
  destruct (cleared_wellFormed _ Hwf) as [A B].
  destruct (0 <? fullCount (board s))%nat; fields; auto.
Qed.

(** X10.  On a board of [BOARD_HEIGHT] rows none of which is full,
    [clearLines] changes nothing at all (board, score, lines and level
    included).  After any call of [clearLines] on a well-formed board no
    row is full, so a second call changes nothing: the row it inserts at
    the top is never itself removed. *)
Theorem clearLines_twice (fuel : nat) (s s1 : Game) (v : jsvalue) :
  wellFormed (board s) -> (21 <= fuel)%nat ->
  clearLines fuel s = Ok (v, s1) ->
  (fullCount (board s) = 0%nat -> s1 = s) /\
  Forall (fun r => rowFull r = false) (board s1) /\
  clearLines fuel s1 = Ok (Undefined, s1).
Proof.
  intros Hwf Hfuel H.
  destruct (clearLines_board _ _ _ _ Hwf H) as [Hwf1 Hfull1].
  split; [|split].
  - intros Hfull. rewrite (clearLines_none _ _ (proj1 Hwf) Hfull Hfuel) in H.
    inversion H. reflexivity.
  - clear - Hfull1. induction (board s1) as [|r b IH]; [constructor|].
    rewrite fullCount_cons in Hfull1.
    destruct (rowFull r) eqn:Hr; [discriminate|].
    constructor; [exact Hr|apply IH; exact Hfull1].
  - apply clearLines_none; [apply Hwf1|exact Hfull1|exact Hfuel].
Qed.

(** ** Soft drop and hard drop *)

(** X11.  In a running game that is not paused a soft drop (key [down]
    or [s]) does exactly what a timer tick does. *)
Theorem soft_drop_is_a_tick (fuel : nat) (s : Game) :
  reachable s -> gameRunning s = true -> gamePaused s = false ->
  dispatch fuel (key "down") s = dispatch fuel Timer s /\
  dispatch fuel (key "s") s = dispatch fuel Timer s.
Proof.
  intros Hreach Hrun Hp.
  destruct (running_started s Hreach) as [Hst Hex].
  assert (Hsp : startPending s = false).
  { destruct (startPending s); [|reflexivity]. rewrite Hst in Hrun; auto. }
  assert (He : exited s = false).
  { destruct (exited s); [|reflexivity]. rewrite Hex in Hrun; auto. }
  assert (Hwrap : forall r : outcome Game,
    r = gameTick fuel s ->
    (s1 <- r ;;
     if exited s1 then Ok s1
     else if startPending s1 then initGame (set_startPending false s1)
     else Ok s1) = gameTick fuel s).
  { intros r ->. destruct (gameTick fuel s) as [s1| |] eqn:E; fields; auto.
    destruct (gameTick_keeps_flags _ _ _ E) as (A & B & _).
    rewrite B, He, A, Hsp. reflexivity. }
  assert (Htick : gameTick fuel s =
    ('(moved, s1) <- movePiece 0 1 s ;;
     if moved then Ok s1 else '(_, s2) <- lockClearSpawn fuel s1 ;; Ok s2)).
  { unfold gameTick. rewrite Hrun, Hp. reflexivity. }
  unfold dispatch, key. rewrite He. split; apply Hwrap; rewrite Htick;
    unfold handleInput; rewrite Hrun, Hp; reflexivity.
Qed.

Lemma dropLoop_path (n : nat) :
  forall (s s' : Game) (p : Piece),
  Inv s -> currentPiece s = Some p -> dropLoop n s = Ok s' ->
  (forall y, currentY s <= y <= currentY s' ->
     isValidPosition (board s) (shape p) (currentX s) y = Ok true) /\
  isValidPosition (board s) (shape p) (currentX s) (currentY s' + 1) = Ok false.
Proof.
  induction n as [|n IH]; intros s s' p HI Hp Hd; [discriminate|].
  simpl in Hd. pose proof HI as HI'.
  destruct HI as [Hwf _ (p' & Hp' & _ & Hvalid) _ _].
  rewrite Hp in Hp'. inversion Hp'; subst p'. clear Hp'.
  destruct (movePiece_spec 0 1 s p (proj1 Hwf) Hp) as (ok & Hok & Heq).
  pose proof (movePiece_inv 0 1 s _ ok HI' ltac:(lia) Heq) as HI1.
  rewrite Heq in Hd. fields in Hd. rewrite Z.add_0_r in Hok. destruct ok.
  - destruct (IH _ s' p HI1 Hp Hd) as [Hpath Hstop].
    fields in Hpath. fields in Hstop. rewrite Z.add_0_r in Hpath, Hstop.
    split; [|exact Hstop]. intros y Hy.
    destruct (Z.eq_dec y (currentY s)) as [->|Hne]; [exact Hvalid|].
    apply Hpath. lia.
  - inversion Hd; subst s'. split; [|exact Hok].
    intros y Hy. replace y with (currentY s) by lia. exact Hvalid.
Qed.

(** X12.  From a reachable running state the loop of [hardDrop] moves
    the piece straight down and nothing else: board, matrix and column are
    the same, every row it passed through was a valid position, and the
    row below the one it stops at is not.  The piece lands on the first
    obstacle under it. *)
Theorem hardDrop_lands_on_first_obstacle (s : Game) :
  reachable s -> gameRunning s = true ->
  exists p s',
    currentPiece s = Some p /\
    dropLoop (Z.to_nat BOARD_HEIGHT) s = Ok s' /\
    board s' = board s /\ currentPiece s' = Some p /\
    currentX s' = currentX s /\ currentY s <= currentY s' /\
    score s' = score s /\ lines s' = lines s /\
    (forall y, currentY s <= y <= currentY s' ->
       isValidPosition (board s) (shape p) (currentX s) y = Ok true) /\
    isValidPosition (board s) (shape p) (currentX s) (currentY s' + 1)
      = Ok false.
Proof.
  intros Hreach Hrun. destruct (reachable_inv s Hreach) as [_ HI].
  specialize (HI Hrun).
  destruct (dropLoop_terminates (Z.to_nat BOARD_HEIGHT) s HI) as (s' & Hd & _).
  { pose proof (inv_y s HI). unfold BOARD_HEIGHT. lia. }
  pose proof (inv_piece s HI) as (p & Hp & _).
  destruct (dropLoop_effect _ _ _ Hd) as ((A1 & A2 & A3 & _) & B & C & D & _).
  destruct (dropLoop_path _ s s' p HI Hp Hd) as [Hpath Hstop].
  exists p, s'. repeat split; try assumption; try congruence; try lia.
Qed.

(** ** When the game ends *)

Lemma PIECES_footprint :
  Forall (fun p => exists R C : nat,
    rect R C (shape p) /\ (R <= 2)%nat /\
    3 <= (BOARD_WIDTH - Z.of_nat (List.length (hd [] (shape p)))) / 2 /\
    (BOARD_WIDTH - Z.of_nat (List.length (hd [] (shape p)))) / 2 + Z.of_nat C <= 7)
    PIECES.
Proof.
  assert (Hrect : forall (R C : nat) (sh : Shape),
    List.length sh = R ->
    forallb (fun r => (List.length r =? C)%nat) sh = true -> rect R C sh).
  { intros R C sh Hlen Hrows. split; [exact Hlen|]. apply Forall_forall.
    intros r Hr. rewrite forallb_forall in Hrows. apply Nat.eqb_eq, Hrows, Hr. }
  unfold PIECES. repeat apply Forall_cons; try apply Forall_nil.
  - exists 1%nat, 4%nat. split; [apply Hrect; reflexivity|].
    split; [lia|]. split; intros H; discriminate H.
  - exists 2%nat, 2%nat. split; [apply Hrect; reflexivity|].
    split; [lia|]. split; intros H; discriminate H.
  - exists 2%nat, 3%nat. split; [apply Hrect; reflexivity|].
    split; [lia|]. split; intros H; discriminate H.
  - exists 2%nat, 3%nat. split; [apply Hrect; reflexivity|].
    split; [lia|]. split; intros H; discriminate H.
  - exists 2%nat, 3%nat. split; [apply Hrect; reflexivity|].
    split; [lia|]. split; intros H; discriminate H.
  - exists 2%nat, 3%nat. split; [apply Hrect; reflexivity|].
    split; [lia|]. split; intros H; discriminate H.
  - exists 2%nat, 3%nat. split; [apply Hrect; reflexivity|].
    split; [lia|]. split; intros H; discriminate H.
Qed.

(** X13.  [spawnPiece] ends the game only when one of the eight cells
    in rows 0..1, columns 3..6 of the board is occupied: while that zone is
    empty a new piece always appears. *)
Theorem game_over_needs_occupied_spawn_zone (s s' : Game) :
  tall (board s) -> nextPieceIndex s = -1 \/ 0 <= nextPieceIndex s < 7 ->
  spawnPiece s = Ok (false, s') ->
  exists y x, 0 <= y < 2 /\ 3 <= x < 7 /\
    cellTruthy (boardCell (board s) y x) = true.
Proof.
  intros Hb Hn Hsp.
  destruct (spawnPiece_spec s Hb Hn)
    as (p & ok & s'' & Hsp' & Hin & Hvalid & _ & _ & Hx & Hy & _).
  rewrite Hsp in Hsp'. inversion Hsp'; subst ok s''. clear Hsp'.
  rewrite Hx, Hy in Hvalid.
  destruct (validRows_spec (board s)
              ((BOARD_WIDTH - Z.of_nat (List.length (hd [] (shape p)))) / 2) 0
              Hb (shape p) 0%nat) as (v & Hv & Hiff).
  unfold isValidPosition in Hvalid. rewrite Hvalid in Hv.
  inversion Hv; subst v. clear Hv.
  destruct (proj1 Hiff eq_refl) as (row & col & Ho & Hbl).
  pose proof PIECES_footprint as Hfoot. rewrite Forall_forall in Hfoot.
  destruct (Hfoot p Hin) as (R & C & Hrect & HR & Hlo & Hhi).
  destruct (occupied_in_range R C _ row col Hrect Ho) as [Hrow Hcol].
  unfold blocked in Hbl. cbv zeta in Hbl. simpl Nat.add in Hbl.
  unfold BOARD_HEIGHT in Hbl.
  destruct Hbl as [H|[H|[H|[_ H]]]];
    try (unfold BOARD_WIDTH in *; lia).
  exists (0 + Z.of_nat row),
    ((BOARD_WIDTH - Z.of_nat (List.length (hd [] (shape p)))) / 2 + Z.of_nat col).
  split; [lia|]. split; [lia|exact H].
Qed.

(** ** The active piece is a tetromino of the catalog *)

Lemma orientations_closed (q : Piece) (sh m : Shape) :
  In q PIECES -> In sh (orientations q) -> rotate sh = Ok m ->
  In m (orientations q).
Proof.
  intros Hq Hsh Hm. unfold PIECES in Hq. simpl in Hq.
  repeat (destruct Hq as [<-|Hq]);
    try (vm_compute in Hsh;
         repeat (destruct Hsh as [<-|Hsh]);
         try (vm_compute in Hm; inversion Hm; vm_compute; tauto);
         destruct Hsh).
Qed.

Lemma orientations_cells (q : Piece) (sh : Shape) :
  In q PIECES -> In sh (orientations q) -> countCells sh = 4%nat.
Proof.
  intros Hq Hsh. unfold PIECES in Hq. simpl in Hq.
  repeat (destruct Hq as [<-|Hq]);
    try (vm_compute in Hsh;
         repeat (destruct Hsh as [<-|Hsh]);
         try reflexivity;
         destruct Hsh).
  contradiction.
Qed.

Lemma catalog_fromCatalog (p : Piece) : In p PIECES -> fromCatalog p.
Proof.
  intros Hp. exists p. split; [exact Hp|]. split; [left; reflexivity|auto].
Qed.

Lemma tally_next (k : nat) (u : Game) :
  nextPieceIndex (tally k u) = nextPieceIndex u.
Proof. unfold tally. destruct (0 <? k)%nat; reflexivity. Qed.

Lemma landing_piece (fuel : nat) (s s' : Game) (ok : bool) :
  Inv s -> lockClearSpawn fuel s = Ok (ok, s') ->
  exists p, In p PIECES /\ currentPiece s' = Some p.
Proof.
  intros HI H. unfold lockClearSpawn in H.
  destruct (lockPiece_spec s HI) as (b1 & Hlock & Hwf1 & _).
  rewrite Hlock in H. fields in H.
  destruct (clearLines fuel (set_board b1 s)) as [[v s2]| |] eqn:Hclear;
    try discriminate. fields in H.
  destruct (clearLines_board fuel (set_board b1 s) s2 v Hwf1 Hclear)
    as [Hwf2 _].
  destruct (clearLines_effect _ _ _ _ Hclear) as (_ & b & k & _ & Hs2).
  assert (Hn2 : nextPieceIndex s2 = nextPieceIndex s).
  { rewrite Hs2, tally_next. reflexivity. }
  destruct (spawnPiece_spec s2 (proj1 Hwf2))
    as (p & ok' & s3 & Hsp & Hin & _ & _ & Hp3 & _).
  { right. rewrite Hn2. apply (inv_next s HI). }
  rewrite Hsp in H. inversion H; subst ok' s3. eauto.
Qed.

Lemma initGame_piece (s s' : Game) :
  initGame s = Ok s' -> exists p, In p PIECES /\ currentPiece s' = Some p.
Proof.
  rewrite initGame_unfold. intros H. apply bind_Ok_inv in H.
  destruct H as ([ok t'] & E & H). inversion H; subst t'. clear H.
  match type of E with spawnPiece ?u = _ => set (s0 := u) in E end.
  destruct (spawnPiece_spec s0) as (p & ok' & s3 & Hsp & Hin & _ & _ & Hp3 & _).
  { reflexivity. }
  { left. reflexivity. }
  rewrite Hsp in E. inversion E; subst ok' s3. eauto.
Qed.

Lemma piece_invariant (s : Game) :
  reachable s -> gameRunning s = true ->
  exists p, currentPiece s = Some p /\ fromCatalog p.
Proof.
  induction 1 as [file rnd|fuel ev s s' Hreach IH Hd].
  - unfold main, loadHighScore. fields. destruct file; fields; discriminate.
  - destruct (reachable_inv s Hreach) as [_ HI].
    pattern s'. apply (dispatch_effect fuel s) with (ev := ev); cbv beta;
      [..|exact Hd].
    + exact IH.
    + intros Hr _. fields. apply IH, Hr.
    + intros Hr _ dx dy ok t _ H.
      destruct (movePiece_pieceOnly _ _ _ _ _ H) as (_ & A & _).
      intros _. rewrite A. apply IH, Hr.
    + intros Hr _ t H _.
      destruct (IH Hr) as (p & Hp & q & Hq & Hsh & Hc & Hch).
      destruct (rotatePiece_effect _ _ H)
        as [->|(p' & m & k & Hp' & Hm & _ & _ & ->)].
      * exists p. split; [exact Hp|]. exists q. auto.
      * rewrite Hp in Hp'. inversion Hp'; subst p'. fields.
        eexists. split; [reflexivity|]. exists q. fields.
        split; [exact Hq|]. split; [|auto].
        apply (orientations_closed q (shape p) m Hq Hsh Hm).
    + intros Hr _ s0 ok t Hs0 H _.
      assert (HI0 : Inv s0).
      { destruct Hs0 as [->|Hdrop]; [auto|].
        apply (dropLoop_inv _ _ _ (HI Hr) Hdrop). }
      destruct (landing_piece _ _ _ _ HI0 H) as (p & Hin & Hp).
      exists p. split; [exact Hp|apply catalog_fromCatalog, Hin].
    + intros _ _. unfold quitGame, saveHighScore. fields.
      destruct (num_gt _ _); fields; discriminate.
    + intros _ t H _. destruct (initGame_piece _ _ H) as (p & Hin & Hp).
      exists p. split; [exact Hp|apply catalog_fromCatalog, Hin].
    + intros s1 t _ _ _ H _. destruct (initGame_piece _ _ H) as (p & Hin & Hp).
      exists p. split; [exact Hp|apply catalog_fromCatalog, Hin].
Qed.

(** X14.  While a game runs the active piece is a piece of the catalog
    in one of its four orientations, with the colour and character of that
    piece, and its matrix has exactly four occupied cells: moves, kicks and
    rotations never add, lose or recolour a cell. *)
Theorem active_piece_is_a_tetromino (s : Game) :
  reachable s -> gameRunning s = true ->
  exists p, currentPiece s = Some p /\ fromCatalog p /\
    countCells (shape p) = 4%nat.
Proof.
  intros Hreach Hrun. destruct (piece_invariant s Hreach Hrun) as (p & Hp & Hcat).
  exists p. split; [exact Hp|]. split; [exact Hcat|].
  destruct Hcat as (q & Hq & Hsh & _).
  apply (orientations_cells q _ Hq Hsh).
Qed.

(** ** Speed *)

(** X1.  In every reachable state the tick interval [getSpeed] gives
    lies between [MIN_SPEED] and [INITIAL_SPEED]: it is
    [880 - 80 * level] below level 10 and [MIN_SPEED] from level 10 on.  It
    never grows with the level. *)
Theorem getSpeed_range (s : Game) :
  reachable s ->
  MIN_SPEED <= getSpeed s <= INITIAL_SPEED /\
  (level s < 10 -> getSpeed s = 880 - 80 * level s) /\
  (10 <= level s -> getSpeed s = MIN_SPEED) /\
  (forall t, level s <= level t -> getSpeed t <= getSpeed s).
Proof.
  intros Hreach. destruct (score_lines_level s Hreach) as (n & _ & _ & Hl & _).
  unfold getSpeed, MIN_SPEED, INITIAL_SPEED. repeat split; intros; lia.
Qed.

(** ** The board of a running game *)

(** X2.  While a game runs the board has [BOARD_HEIGHT] rows of
    [BOARD_WIDTH] cells, none of them a hole, no row is fully occupied, the
    origin row of the active piece is not negative, and the index of the
    next piece names a piece of the catalog. *)
Theorem running_board_shape (s : Game) :
  reachable s -> gameRunning s = true ->
  wellFormed (board s) /\
  Forall (fun r => rowOccupied r = false) (board s) /\
  0 <= currentY s /\
  exists q, PIECES_at (nextPieceIndex s) = Some q.
Proof.
  intros Hreach Hrun. destruct (reachable_inv s Hreach) as [_ HI].
  destruct (HI Hrun) as [Hwf Hfull _ Hy Hn].
  split; [exact Hwf|]. split; [|split; [exact Hy|]].
  - destruct Hwf as [_ Hrows]. revert Hfull Hrows.
    induction (board s) as [|r b IH]; intros Hfull Hrows; [constructor|].
    inversion Hrows as [|? ? Hr Hrest]; subst.
    rewrite fullCount_cons in Hfull.
    destruct (rowFull r) eqn:E; [discriminate|].
    constructor; [|apply IH; assumption].
    rewrite <- (rowFull_rowOccupied r (proj2 Hr)). exact E.
  - destruct (PIECES_at_In _ Hn) as (q & Hq & _). eauto.
Qed.

(** ** The cells [lockPiece] writes *)

Lemma boardCell_write (b : Board) (n : nat) (brow : list cell) (X : Z)
      (p : Piece) (yy xx : Z) :
  nth_error b n = Some brow -> 0 <= X -> (Z.to_nat X < List.length brow)%nat ->
  0 <= yy -> 0 <= xx ->
  boardCell (set_at [] n (writeCell X p brow) b) yy xx =
  if (yy =? Z.of_nat n) && (xx =? X) then Ref p else boardCell b yy xx.
Proof.
  intros Hrow HX Hlen Hyy Hxx. unfold boardCell.
  assert (Hn : (n < List.length b)%nat).
  { apply nth_error_Some. congruence. }
  assert (Hnth : nth n b [] = brow) by (apply nth_error_nth; exact Hrow).
  destruct (Z.eqb_spec yy (Z.of_nat n)) as [->|Hy]; simpl.
  - rewrite Nat2Z.id, set_at_nth_same by exact Hn. unfold writeCell.
    replace (X <? 0) with false by (symmetry; apply Z.ltb_ge; lia).
    destruct (Z.eqb_spec xx X) as [->|Hx].
    + apply set_at_nth_same. exact Hlen.
    + rewrite set_at_nth_other by lia. rewrite Hnth. reflexivity.
  - rewrite set_at_nth_other by lia. reflexivity.
Qed.

Lemma lockRow_cells (p : Piece) (x y : Z) (row : nat) :
  0 <= y ->
  forall (r : list Z) (col : nat) (b b' : Board),
  wellFormed b ->
  (forall j, truthy (nth j r 0) = true ->
     0 <= x + Z.of_nat (col + j) < BOARD_WIDTH /\
     y + Z.of_nat row < BOARD_HEIGHT) ->
  lockRow p x y row col r b = Ok b' ->
  forall yy xx, 0 <= yy -> 0 <= xx ->
    boardCell b' yy xx =
    if (yy =? y + Z.of_nat row) && (x + Z.of_nat col <=? xx) &&
       truthy (nth (Z.to_nat (xx - (x + Z.of_nat col))) r 0)
    then Ref p else boardCell b yy xx.
Proof.
  intros Hy. induction r as [|c r IH]; intros col b b' Hb Hcells Hlock yy xx Hyy Hxx.
  - simpl in Hlock. inversion Hlock; subst b'.
    destruct (Z.to_nat (xx - (x + Z.of_nat col))); simpl;
      rewrite andb_false_r; reflexivity.
  - assert (Hrest : forall j, truthy (nth j r 0) = true ->
       0 <= x + Z.of_nat (S col + j) < BOARD_WIDTH /\
       y + Z.of_nat row < BOARD_HEIGHT).
    { intros j Hj. replace (S col + j)%nat with (col + S j)%nat by lia.
      apply Hcells. exact Hj. }
    assert (Hshift : forall v : cell,
      (if (yy =? y + Z.of_nat row) && (x + Z.of_nat (S col) <=? xx) &&
          truthy (nth (Z.to_nat (xx - (x + Z.of_nat (S col)))) r 0)
       then Ref p
       else if (yy =? y + Z.of_nat row) && (xx =? x + Z.of_nat col) && truthy c
            then Ref p else v) =
      (if (yy =? y + Z.of_nat row) && (x + Z.of_nat col <=? xx) &&
          truthy (nth (Z.to_nat (xx - (x + Z.of_nat col))) (c :: r) 0)
       then Ref p else v)).
    { intros v. destruct (yy =? y + Z.of_nat row); cbn [andb]; [|reflexivity].
      destruct (Z.leb_spec (x + Z.of_nat (S col)) xx) as [H1|H1]; cbn [andb].
      - replace (x + Z.of_nat col <=? xx) with true
          by (symmetry; apply Z.leb_le; lia).
        replace (xx =? x + Z.of_nat col) with false
          by (symmetry; apply Z.eqb_neq; lia).
        replace (Z.to_nat (xx - (x + Z.of_nat col)))
          with (S (Z.to_nat (xx - (x + Z.of_nat (S col))))) by lia.
        cbn [andb nth]. destruct (truthy (nth _ r 0)); reflexivity.
      - destruct (Z.eqb_spec xx (x + Z.of_nat col)) as [->|H2].
        + replace (x + Z.of_nat col <=? x + Z.of_nat col) with true
            by (symmetry; apply Z.leb_le; lia).
          rewrite Z.sub_diag. change (Z.to_nat 0) with 0%nat.
          cbn [andb nth]. reflexivity.
        + replace (x + Z.of_nat col <=? xx) with false
            by (symmetry; apply Z.leb_gt; lia).
          reflexivity. }
    simpl lockRow in Hlock. destruct (truthy c) eqn:Hc.
    + destruct (Hcells 0%nat Hc) as [Hx Hh]. rewrite Nat.add_0_r in Hx.
      replace (y + Z.of_nat row >=? 0) with true in Hlock
        by (symmetry; apply Z.geb_le; lia).
      pose proof Hb as [Htall Hrows]. unfold tall in Htall.
      assert (Hn : (Z.to_nat (y + Z.of_nat row) < List.length b)%nat) by lia.
      destruct (nth_error b (Z.to_nat (y + Z.of_nat row))) as [brow|] eqn:Hrow;
        [|apply nth_error_None in Hrow; lia].
      assert (Hwf : wfRow brow).
      { rewrite Forall_forall in Hrows. apply Hrows.
        apply nth_error_In in Hrow. exact Hrow. }
      assert (Hb1 : wellFormed
        (set_at [] (Z.to_nat (y + Z.of_nat row))
           (writeCell (x + Z.of_nat col) p brow) b)).
      { split.
        - unfold tall. rewrite set_at_length; assumption.
        - apply set_at_Forall; [assumption| |assumption].
          apply writeCell_wfRow; assumption. }
      rewrite (IH (S col) _ b' Hb1 Hrest Hlock yy xx Hyy Hxx).
      rewrite (boardCell_write b _ brow (x + Z.of_nat col) p yy xx Hrow)
        by (destruct Hwf as [Hl _]; unfold BOARD_WIDTH in *; lia).
      rewrite Z2Nat.id by lia. rewrite <- (Hshift (boardCell b yy xx)).
      rewrite andb_true_r. reflexivity.
    + rewrite (IH (S col) b b' Hb Hrest Hlock yy xx Hyy Hxx).
      rewrite <- (Hshift (boardCell b yy xx)). rewrite andb_false_r.
      reflexivity.
Qed.

Lemma lockRows_cells (p : Piece) (x y : Z) :
  0 <= y ->
  forall (sh : Shape) (row : nat) (b b' : Board),
  wellFormed b ->
  (forall i j, occupied sh i j ->
     0 <= x + Z.of_nat j < BOARD_WIDTH /\
     y + Z.of_nat (row + i) < BOARD_HEIGHT) ->
  lockRows p x y row sh b = Ok b' ->
  forall yy xx, 0 <= yy -> 0 <= xx ->
    boardCell b' yy xx =
    if (y + Z.of_nat row <=? yy) && (x <=? xx) &&
       truthy (cellAt sh (Z.to_nat (yy - (y + Z.of_nat row))) (Z.to_nat (xx - x)))
    then Ref p else boardCell b yy xx.
Proof.
  intros Hy. induction sh as [|r sh IH]; intros row b b' Hb Hcells Hlock yy xx Hyy Hxx.
  - simpl in Hlock. inversion Hlock; subst b'. unfold cellAt.
    destruct (Z.to_nat (yy - (y + Z.of_nat row)));
      destruct (Z.to_nat (xx - x)); simpl; rewrite andb_false_r; reflexivity.
  - simpl lockRows in Hlock.
    assert (Hrow0 : forall j, truthy (nth j r 0) = true ->
      0 <= x + Z.of_nat (0 + j) < BOARD_WIDTH /\
      y + Z.of_nat row < BOARD_HEIGHT).
    { intros j Hj. specialize (Hcells 0%nat j Hj).
      rewrite Nat.add_0_r in Hcells. exact Hcells. }
    destruct (lockRow_ok p x y row Hy r 0%nat b Hb Hrow0) as (b1 & Hb1 & Hwf1 & _).
    rewrite Hb1 in Hlock. fields in Hlock.
    assert (Hrest : forall i j, occupied sh i j ->
      0 <= x + Z.of_nat j < BOARD_WIDTH /\
      y + Z.of_nat (S row + i) < BOARD_HEIGHT).
    { intros i j Ho. replace (S row + i)%nat with (row + S i)%nat by lia.
      apply Hcells. exact Ho. }
    rewrite (IH (S row) b1 b' Hwf1 Hrest Hlock yy xx Hyy Hxx).
    rewrite (lockRow_cells p x y row Hy r 0%nat b b1 Hb Hrow0 Hb1 yy xx Hyy Hxx).
    replace (x + Z.of_nat 0) with x by lia.
    destruct (Z.leb_spec (y + Z.of_nat (S row)) yy) as [H1|H1]; cbn [andb].
    + replace (y + Z.of_nat row <=? yy) with true
        by (symmetry; apply Z.leb_le; lia).
      replace (yy =? y + Z.of_nat row) with false
        by (symmetry; apply Z.eqb_neq; lia).
      replace (Z.to_nat (yy - (y + Z.of_nat row)))
        with (S (Z.to_nat (yy - (y + Z.of_nat (S row))))) by lia.
      cbn [andb]. unfold cellAt. cbn [nth]. reflexivity.
    + destruct (Z.eqb_spec yy (y + Z.of_nat row)) as [->|H2]; cbn [andb].
      * replace (y + Z.of_nat row <=? y + Z.of_nat row) with true
          by (symmetry; apply Z.leb_le; lia).
        rewrite Z.sub_diag. change (Z.to_nat 0) with 0%nat.
        unfold cellAt. cbn [andb nth]. reflexivity.
      * replace (y + Z.of_nat row <=? yy) with false
          by (symmetry; apply Z.leb_gt; lia).
        reflexivity.
Qed.

(** X3.  In a reachable running state [lockPiece] returns, changes no
    variable but the board, and on the board writes the piece into exactly
    the cells its matrix covers: every occupied cell of the matrix becomes
    a reference to the piece, every other cell keeps what it held.  (The
    origin row is never negative there, so no cell of the piece is
    dropped.) *)
Theorem lockPiece_writes_the_piece (s : Game) :
  reachable s -> gameRunning s = true ->
  exists p b,
    currentPiece s = Some p /\ lockPiece s = Ok (set_board b s) /\
    forall y x, 0 <= y -> 0 <= x ->
      boardCell b y x =
      if covers (shape p) (y - currentY s) (x - currentX s)
      then Ref p else boardCell (board s) y x.
Proof.
  intros Hreach Hrun. destruct (reachable_inv s Hreach) as [_ HI].
  specialize (HI Hrun). pose proof HI as HI'.
  destruct HI as [Hwf _ (p & Hp & _ & Hvalid) Hy _].
  destruct (lockPiece_spec s HI') as (b & Hlock & _).
  exists p, b. split; [exact Hp|]. split; [exact Hlock|].
  unfold lockPiece in Hlock. rewrite Hp in Hlock.
  destruct (lockRows p (currentX s) (currentY s) 0 (shape p) (board s))
    as [b0| |] eqn:E; fields in Hlock; try discriminate.
  inversion Hlock as [Hb0]. subst b0.
  intros y x Hy0 Hx0.
  rewrite (lockRows_cells p (currentX s) (currentY s) Hy (shape p) 0%nat
             (board s) b Hwf) with (yy := y) (xx := x); auto.
  - unfold covers. replace (currentY s + Z.of_nat 0) with (currentY s) by lia.
    replace (currentY s <=? y) with (0 <=? y - currentY s)
      by (destruct (Z.leb_spec 0 (y - currentY s)),
                   (Z.leb_spec (currentY s) y); try reflexivity; lia).
    replace (currentX s <=? x) with (0 <=? x - currentX s)
      by (destruct (Z.leb_spec 0 (x - currentX s)),
                   (Z.leb_spec (currentX s) x); try reflexivity; lia).
    reflexivity.
  - intros i j Ho.
    destruct (valid_cells_in_range _ _ _ _ (proj1 Hwf) Hvalid i j Ho)
      as (Hx & Hh & _).
    split; [exact Hx|exact Hh].
Qed.

(** ** What is saved when a game ends *)

Lemma saveHighScore_file (u : Game) :
  hsFile (saveHighScore u) =
    (if num_gt (score u) (Int (highScore u)) then Some (score u) else hsFile u) /\
  score (saveHighScore u) = score u /\
  highScore (saveHighScore u) = highScore u /\
  gameRunning (saveHighScore u) = gameRunning u /\
  startPending (saveHighScore u) = startPending u.
Proof.
  unfold saveHighScore. destruct (num_gt _ _); fields; repeat split.
Qed.

(** X15.  When a callback ends a running game (a spawn fails, or the
    player quits), the file is written with the final score if that score
    is greater than [highScore], and is left as it was otherwise. *)
Theorem end_of_game_saves_score (fuel : nat) (ev : event) (s s' : Game) :
  reachable s -> gameRunning s = true -> dispatch fuel ev s = Ok s' ->
  gameRunning s' = false ->
  hsFile s' =
  if num_gt (score s') (Int (highScore s')) then Some (score s') else hsFile s.
Proof.
  intros Hreach Hrun Hd.
  destruct (running_started s Hreach) as [Hst _].
  assert (Hsp : startPending s = false).
  { destruct (startPending s); [|reflexivity]. rewrite Hst in Hrun; auto. }
  assert (Hgoal : startPending s' = false /\
    (gameRunning s' = false ->
     hsFile s' =
     if num_gt (score s') (Int (highScore s')) then Some (score s')
     else hsFile s)); [|apply Hgoal].
  pattern s'. apply (dispatch_effect fuel s) with (ev := ev); cbv beta;
    [..|exact Hd].
  - split; [exact Hsp|]. congruence.
  - intros _. fields. split; [exact Hsp|]. congruence.
  - intros _ _ dx dy ok t _ H.
    destruct (movePiece_pieceOnly _ _ _ _ _ H)
      as ((_ & _ & _ & _ & _ & A & _ & _ & B & _) & _).
    split; congruence.
  - intros _ _ t H.
    destruct (rotatePiece_pieceOnly _ _ H)
      as ((_ & _ & _ & _ & _ & A & _ & _ & B & _) & _).
    split; congruence.
  - intros _ _ s0 ok t Hs0 H.
    assert (Hs0' : gameRunning s0 = true /\ hsFile s0 = hsFile s /\
                   startPending s0 = false).
    { destruct Hs0 as [->|Hdrop]; [auto|].
      destruct (dropLoop_effect _ _ _ Hdrop)
        as ((_ & _ & _ & _ & _ & A & _ & B & C & _) & _).
      repeat split; congruence. }
    destruct Hs0' as (Hr0 & Hf0 & Hsp0).
    destruct (lockClearSpawn_frame _ _ _ _ H) as (F1 & _ & _ & F4 & _).
    split; [congruence|]. intros Hover.
    rewrite Hr0 in F4. simpl in F4. rewrite Hover in F4. subst ok.
    destruct (lockClearSpawn_effect _ _ _ _ H)
      as (b1 & b & k & u & _ & _ & Hu & _ & ->).
    destruct Hu as (_ & _ & _ & _ & _ & _ & _ & U8 & _).
    destruct (tally_frame k (set_board b s0)) as (_ & _ & _ & _ & T5 & _).
    fields in T5. unfold gameOver.
    destruct (saveHighScore_file (set_gameRunning false u)) as (A & B & C & _).
    rewrite A, B, C. fields.
    replace (hsFile u) with (hsFile s) by congruence. reflexivity.
  - intros _ _. split.
    + unfold quitGame, saveHighScore. fields. destruct (num_gt _ _); exact Hsp.
    + intros _. unfold quitGame. fields.
      destruct (saveHighScore_file (set_gameRunning false s)) as (A & B & C & _).
      rewrite A, B, C. reflexivity.
  - intros Hr. congruence.
  - intros s1 t [Hs1 _] Hs1' _ _. congruence.
Qed.

(** ** Sample runs of the further properties *)

Lemma after_reachable (evs : list event) (s : Game) :
  reachable s -> reachable (after evs s).
Proof.
  intros Hs. unfold after. destruct (run 41 evs s) as [s'| |] eqn:E; auto.
  apply (run_reachable 41 evs s s' Hs E).
Qed.

Lemma process_never_lowers_startup_score_witness :
  exists s,
    run 41 firstGame (main (Some (Int 150)) twoGamesDraws) = Ok s /\
    highScore s = 150 /\
    (hsFile s = Some (Int 150) \/
     exists n, hsFile s = Some (Int n) /\ highScore s < n).
Proof.
  destruct (run 41 firstGame (main (Some (Int 150)) twoGamesDraws))
    as [s| |] eqn:E.
  2,3: vm_compute in E; discriminate E.
  exists s. split; [reflexivity|].
  exact (process_never_lowers_startup_score 41 firstGame (Some (Int 150))
           twoGamesDraws s E).
Defined.

Lemma score_is_a_number_witness :
  reachable gameOverState /\
  exists n, score gameOverState = Int n /\ 0 <= lines gameOverState /\
    1 <= level gameOverState /\ 100 * lines gameOverState <= n.
Proof.
  assert (Hr : reachable gameOverState) by (apply after_reachable, reach_main).
  split; [exact Hr|]. exact (score_is_a_number gameOverState Hr).
Defined.

Lemma callback_never_lowers_score_witness :
  reachable (started 0) /\ gameRunning (started 0) = true /\
  exists s', dispatch 41 Timer (started 0) = Ok s' /\
    lines (started 0) <= lines s'.
Proof.
  assert (Hr : reachable (started 0)) by (apply started_reachable; lia).
  assert (Hg : gameRunning (started 0) = true) by (vm_compute; reflexivity).
  split; [exact Hr|]. split; [exact Hg|].
  destruct (dispatch 41 Timer (started 0)) as [s'| |] eqn:E.
  2,3: vm_compute in E; discriminate E.
  exists s'. split; [reflexivity|].
  destruct (callback_never_lowers_score 41 Timer (started 0) s' Hr Hg E)
    as (n & k & _ & _ & _ & Hl & _).
  lia.
Defined.

Lemma finished_game_ignores_input_witness :
  gameRunning gameOverState = false /\ startPending gameOverState = false /\
  run 41 [key "q"; Timer; key "a"; key "space"] gameOverState
    = Ok gameOverState.
Proof.
  assert (Hg : gameRunning gameOverState = false) by (vm_compute; reflexivity).
  assert (Hs : startPending gameOverState = false) by (vm_compute; reflexivity).
  split; [exact Hg|]. split; [exact Hs|].
  apply (finished_game_ignores_input 41 _ gameOverState Hg Hs).
  vm_compute. reflexivity.
Defined.

Lemma pause_freezes_game_witness :
  reachable (started 0) /\ gameRunning (started 0) = true /\
  gamePaused (started 0) = false /\
  run 41 (key "p" :: [key "a"; Timer; key "q"; key "space"] ++ [key "p"])
    (started 0) = Ok (started 0).
Proof.
  assert (Hr : reachable (started 0)) by (apply started_reachable; lia).
  assert (Hg : gameRunning (started 0) = true) by (vm_compute; reflexivity).
  assert (Hp : gamePaused (started 0) = false) by (vm_compute; reflexivity).
  split; [exact Hr|]. split; [exact Hg|]. split; [exact Hp|].
  apply (pause_freezes_game 41 _ (started 0) Hr Hg Hp).
  vm_compute. reflexivity.
Defined.

Lemma clearLines_twice_witness :
  wellFormed (board (started 0)) /\ (21 <= 41)%nat /\
  exists s1, clearLines 41 (started 0) = Ok (Undefined, s1) /\
    clearLines 41 s1 = Ok (Undefined, s1).
Proof.
  assert (Hwf : wellFormed (board (started 0))) by apply initBoard_wellFormed.
  split; [exact Hwf|]. split; [lia|].
  destruct (clearLines 41 (started 0)) as [[v s1]| |] eqn:E.
  2,3: vm_compute in E; discriminate E.
  destruct (clearLines_effect _ _ _ _ E) as (-> & _).
  exists s1. split; [reflexivity|].
  apply (clearLines_twice 41 (started 0) s1 Undefined Hwf ltac:(lia) E).
Defined.

Lemma soft_drop_is_a_tick_witness :
  reachable (started 0) /\ gameRunning (started 0) = true /\
  gamePaused (started 0) = false /\
  dispatch 41 (key "down") (started 0) = dispatch 41 Timer (started 0).
Proof.
  assert (Hr : reachable (started 0)) by (apply started_reachable; lia).
  assert (Hg : gameRunning (started 0) = true) by (vm_compute; reflexivity).
  assert (Hp : gamePaused (started 0) = false) by (vm_compute; reflexivity).
  split; [exact Hr|]. split; [exact Hg|]. split; [exact Hp|].
  exact (proj1 (soft_drop_is_a_tick 41 (started 0) Hr Hg Hp)).
Defined.

Lemma hardDrop_lands_on_first_obstacle_witness :
  reachable almostOver /\ gameRunning almostOver = true /\
  exists s', dropLoop (Z.to_nat BOARD_HEIGHT) almostOver = Ok s' /\
    currentY almostOver <= currentY s'.
Proof.
  assert (Hr : reachable almostOver) by (apply after_reachable, reach_main).
  assert (Hg : gameRunning almostOver = true) by (vm_compute; reflexivity).
  split; [exact Hr|]. split; [exact Hg|].
  destruct (hardDrop_lands_on_first_obstacle almostOver Hr Hg)
    as (p & s' & _ & Hd & _ & _ & _ & Hy & _).
  exists s'. split; [exact Hd|exact Hy].
Defined.

Lemma game_over_needs_occupied_spawn_zone_witness :
  tall (board jammed) /\ 0 <= nextPieceIndex jammed < 7 /\
  exists s', spawnPiece jammed = Ok (false, s') /\
    exists y x, 0 <= y < 2 /\ 3 <= x < 7 /\
      cellTruthy (boardCell (board jammed) y x) = true.
Proof.
  assert (Hb : tall (board jammed)) by (vm_compute; reflexivity).
  assert (Hn : 0 <= nextPieceIndex jammed < 7).
  { replace (nextPieceIndex jammed) with 0 by (vm_compute; reflexivity). lia. }
  split; [exact Hb|]. split; [exact Hn|].
  destruct (spawnPiece jammed) as [[ok s']| |] eqn:E.
  2,3: vm_compute in E; discriminate E.
  assert (Hok : ok = false).
  { pose proof E as E'. vm_compute in E'. inversion E'. reflexivity. }
  subst ok. exists s'. split; [reflexivity|].
  exact (game_over_needs_occupied_spawn_zone jammed s' Hb (or_intror Hn) E).
Defined.

Lemma active_piece_is_a_tetromino_witness :
  reachable almostOver /\ gameRunning almostOver = true /\
  exists p, currentPiece almostOver = Some p /\ countCells (shape p) = 4%nat.
Proof.
  assert (Hr : reachable almostOver) by (apply after_reachable, reach_main).
  assert (Hg : gameRunning almostOver = true) by (vm_compute; reflexivity).
  split; [exact Hr|]. split; [exact Hg|].
  destruct (active_piece_is_a_tetromino almostOver Hr Hg) as (p & Hp & _ & Hc).
  exists p. split; [exact Hp|exact Hc].
Defined.

Lemma getSpeed_range_witness :
  reachable almostOver /\
  MIN_SPEED <= getSpeed almostOver <= INITIAL_SPEED.
Proof.
  assert (Hr : reachable almostOver) by (apply after_reachable, reach_main).
  split; [exact Hr|]. exact (proj1 (getSpeed_range almostOver Hr)).
Defined.

Lemma running_board_shape_witness :
  reachable almostOver /\ gameRunning almostOver = true /\
  wellFormed (board almostOver).
Proof.
  assert (Hr : reachable almostOver) by (apply after_reachable, reach_main).
  assert (Hg : gameRunning almostOver = true) by (vm_compute; reflexivity).
  split; [exact Hr|]. split; [exact Hg|].
  exact (proj1 (running_board_shape almostOver Hr Hg)).
Defined.

Lemma lockPiece_writes_the_piece_witness :
  reachable (started 0) /\ gameRunning (started 0) = true /\
  exists b, lockPiece (started 0) = Ok (set_board b (started 0)).
Proof.
  assert (Hr : reachable (started 0)) by (apply started_reachable; lia).
  assert (Hg : gameRunning (started 0) = true) by (vm_compute; reflexivity).
  split; [exact Hr|]. split; [exact Hg|].
  destruct (lockPiece_writes_the_piece (started 0) Hr Hg) as (p & b & _ & Hl & _).
  exists b. exact Hl.
Defined.

Lemma end_of_game_saves_score_witness :
  reachable almostOver /\ gameRunning almostOver = true /\
  exists s', dispatch 41 (key "space") almostOver = Ok s' /\
    gameRunning s' = false /\ hsFile s' = Some (Int 200).
Proof.
  assert (Hr : reachable almostOver) by (apply after_reachable, reach_main).
  assert (Hg : gameRunning almostOver = true) by (vm_compute; reflexivity).
  split; [exact Hr|]. split; [exact Hg|].
  destruct (dispatch 41 (key "space") almostOver) as [s'| |] eqn:E.
  2,3: vm_compute in E; discriminate E.
  assert (Hfacts : gameRunning s' = false /\ score s' = Int 200 /\
                   highScore s' = 0).
  { pose proof E as E'. vm_compute in E'. inversion E'. repeat split. }
  destruct Hfacts as (Hover & Hscore & Hhigh).
  exists s'. split; [reflexivity|]. split; [exact Hover|].
  rewrite (end_of_game_saves_score 41 (key "space") almostOver s' Hr Hg E Hover).
  rewrite Hscore, Hhigh. reflexivity.
Defined.
